(** * Event platform: the capacity-bounded RSVP core

    A shallow embedding of [backend/routes/events.js] and of the Mongoose
    schema in [backend/models/Event.js].

    - The [events] collection is a finite map from document id to event.
    - Every route handler is a function from the store and the request to a
      response and the store that results.
    - [event.save()] runs the schema validators and then writes, as Mongoose
      does; a rejected save is the handler's [catch] branch (HTTP 500).
    - Request bodies are multipart forms (the routes go through
      [upload.single('image')], the client sends [FormData]): a field is
      either absent or a string.
    - JavaScript numbers are modelled by [Z], with [None] for [NaN]; the
      results are exact where the JavaScript double is, that is up to
      [MAX_SAFE_INTEGER].
    - Identity ([req.user.id]) comes from the [auth] middleware, which is not
      part of the embedded code: user ids are opaque strings.
    - [populate] only decorates the response with user names and is left
      out; so are the bookkeeping fields that Mongoose maintains on its own
      ([createdAt], [updatedAt], [__v]). *)

From Stdlib Require Import ZArith Lia Ascii.
From stdpp Require Import gmap strings list sorting pretty.

Local Open Scope Z_scope.

(** ** JavaScript strings and numbers *)

Module JS.

(** [StrWhiteSpaceChar], restricted to its ASCII members: TAB, LF, VT, FF,
    CR and SPACE. *)
Definition isWhiteSpace (c : Ascii.ascii) : bool :=
  let n := Ascii.nat_of_ascii c in
  ((9 <=? n)%nat && (n <=? 13)%nat) || (n =? 32)%nat.

Fixpoint trimStart (s : string) : string :=
  match s with
  | String c r => if isWhiteSpace c then trimStart r else s
  | EmptyString => EmptyString
  end.

Fixpoint trimEnd (s : string) : string :=
  match s with
  | String c r =>
      match trimEnd r with
      | EmptyString => if isWhiteSpace c then EmptyString else String c EmptyString
      | r' => String c r'
      end
  | EmptyString => EmptyString
  end.

(** [String.prototype.trim] *)
Definition trim (s : string) : string := trimEnd (trimStart s).

(** The value of a character as a digit: 0-9, then a-z and A-Z for 10-35. *)
Definition digitValue (c : Ascii.ascii) : option Z :=
  let n := Z.of_nat (Ascii.nat_of_ascii c) in
  if (48 <=? n) && (n <=? 57) then Some (n - 48)
  else if (97 <=? n) && (n <=? 122) then Some (n - 87)
  else if (65 <=? n) && (n <=? 90) then Some (n - 55)
  else None.

(** The longest prefix of [s] made of digits of the radix, read as a number
    on top of the digits already read ([acc], [None] while there are none). *)
Fixpoint readDigits (radix : Z) (acc : option Z) (s : string) : option Z :=
  match s with
  | String c r =>
      match digitValue c with
      | Some d =>
          if d <? radix
          then readDigits radix (Some (default 0 acc * radix + d)) r
          else acc
      | None => acc
      end
  | EmptyString => acc
  end.

(** A leading [-] or [+] *)
Definition readSign (s : string) : Z * string :=
  match s with
  | String c r =>
      if Ascii.eqb c "-" then (-1, r)
      else if Ascii.eqb c "+" then (1, r)
      else (1, s)
  | EmptyString => (1, s)
  end.

(** A leading [0x] or [0X] selects radix 16, anything else radix 10. *)
Definition readRadix (s : string) : Z * string :=
  match s with
  | String c0 (String c1 r) =>
      if Ascii.eqb c0 "0" && (Ascii.eqb c1 "x" || Ascii.eqb c1 "X")
      then (16, r) else (10, s)
  | _ => (10, s)
  end.

(** [parseInt(string)] with the radix left undefined: leading white space
    is skipped, a sign is read, then the radix prefix, and the digits up to
    the first character that is not one are the result. [None] is [NaN]. *)
Definition parseInt (s : string) : option Z :=
  let signed := readSign (trimStart s) in
  let prefixed := readRadix signed.2 in
  Z.mul signed.1 <$> readDigits prefixed.1 None prefixed.2.


(** Truthiness of a form field: [undefined] and the empty string are
    falsy, every other string is truthy (also ["0"]). *)
Definition truthy (v : option string) : bool :=
  match v with
  | Some s => negb (String.eqb s "")
  | None => false
  end.

End JS.

(** ** The data model: [models/Event.js] *)

Definition UserId := string.
Definition EventId := string.

(** A stored event. [date] is the start time in milliseconds since the epoch;
    [attendees] keeps the array's order. *)
Record Event := mkEvent {
  title : string;
  description : string;
  date : Z;
  location : string;
  capacity : Z;
  attendees : list UserId;
  image : string;
  creator : UserId
}.

(** The [events] collection, keyed by [_id]. *)
Abbreviation Store := (gmap EventId Event).

(** A document in memory, as [save] receives it: assigning a string to the
    [Date] path or [NaN] to the [Number] path leaves a cast failure behind,
    here [None]. *)
Record Document := mkDocument {
  doc_title : string;
  doc_description : string;
  doc_date : option Z;
  doc_location : string;
  doc_capacity : option Z;
  doc_attendees : list UserId;
  doc_image : string;
  doc_creator : UserId
}.

(** A document loaded by [findById]. *)
Definition load (e : Event) : Document :=
  {| doc_title := title e; doc_description := description e;
     doc_date := Some (date e); doc_location := location e;
     doc_capacity := Some (capacity e); doc_attendees := attendees e;
     doc_image := image e; doc_creator := creator e |}.

Definition toEvent (d : Document) : option Event :=
  match doc_date d, doc_capacity d with
  | Some dt, Some c =>
      Some {| title := doc_title d; description := doc_description d;
              date := dt; location := doc_location d; capacity := c;
              attendees := doc_attendees d; image := doc_image d;
              creator := doc_creator d |}
  | _, _ => None
  end.

(** *** Schema validation *)

Inductive ValidatorKind := Required | Min | Cast.

Definition PathError : Type := string * ValidatorKind.

(** [required: true] on a [String] path: the value must not be empty. *)
Definition requiredString (path : string) (v : string) : list PathError :=
  if String.eqb v "" then [(path, Required)] else [].

(** [type: Date, required: true] *)
Definition validDate (v : option Z) : list PathError :=
  match v with
  | Some _ => []
  | None => [("date", Cast)]
  end.

(** [type: Number, required: true, min: 1] *)
Definition validCapacity (v : option Z) : list PathError :=
  match v with
  | Some c => if c <? 1 then [("capacity", Min)] else []
  | None => [("capacity", Cast)]
  end.

(** The validators of [eventSchema], in the order of its paths. The two
    [ObjectId] paths hold ids that the authentication layer has produced
    and have nothing to check here. *)
Definition validate (d : Document) : list PathError :=
  requiredString "title" (doc_title d) ++
  requiredString "description" (doc_description d) ++
  validDate (doc_date d) ++
  requiredString "location" (doc_location d) ++
  validCapacity (doc_capacity d).

Inductive SaveError :=
| ValidationError (errors : list PathError)
| DuplicateKey.

(** [doc.save()]: validate, then insert (a new document, whose [_id] must be
    free) or overwrite (a loaded one). *)
Definition save (isNew : bool) (st : Store) (id : EventId) (d : Document)
  : SaveError + Store :=
  match validate d, toEvent d with
  | [], Some e =>
      if isNew && bool_decide (is_Some (st !! id)) then inl DuplicateKey
      else inr (<[id := e]> st)
  | errors, _ => inl (ValidationError errors)
  end.

(** A stored event is schema-valid when it passes the validators again. *)
Definition validEvent (e : Event) : Prop := validate (load e) = [].

(** *** Transactions ([mongoose.startSession]) *)

(** A session keeps the store as it was at [startTransaction] and the store
    with the writes made through the session. *)
Record Session := mkSession { committed : Store; working : Store }.

Definition startTransaction (st : Store) : Session :=
  {| committed := st; working := st |}.
Definition abortTransaction (s : Session) : Store := committed s.
Definition commitTransaction (s : Session) : Store := working s.

(** [doc.save({ session })] *)
Definition saveIn (s : Session) (id : EventId) (d : Document)
  : SaveError + Session :=
  match save false (working s) id d with
  | inl err => inl err
  | inr w => inr {| committed := committed s; working := w |}
  end.

(** ** The registration engine: [routes/events.js] *)

(** The outcome of an RSVP or of a cancellation, named as the responses are:
    404 [EventNotFound]; 400 [EventEnded], [AlreadyRegistered], [Full],
    [NotRegistered]; 200 [Registered], [Cancelled]; 500 [ServerError]. *)
Inductive Outcome :=
| Registered
| AlreadyRegistered
| Full
| EventNotFound
| EventEnded
| Cancelled
| NotRegistered
| ServerError (err : SaveError).

(** [event.attendees.some(attendee => attendee.toString() === req.user.id)] *)
Definition isRegistered (user : UserId) (l : list UserId) : bool :=
  existsb (fun attendee => String.eqb attendee user) l.

(** [event.attendees.findIndex(attendee => attendee.toString() === req.user.id)],
    [None] for -1. *)
Fixpoint findIndex (user : UserId) (l : list UserId) : option nat :=
  match l with
  | [] => None
  | attendee :: r =>
      if String.eqb attendee user then Some 0%nat
      else S <$> findIndex user r
  end.

(** [array.splice(i, 1)] *)
Definition splice1 (i : nat) (l : list UserId) : list UserId :=
  take i l ++ drop (S i) l.

Definition withAttendees (l : list UserId) (e : Event) : Event :=
  {| title := title e; description := description e; date := date e;
     location := location e; capacity := capacity e; attendees := l;
     image := image e; creator := creator e |}.


(** Every field of an event but its attendees. *)
Definition metadata (e : Event) : string * string * Z * string * Z * UserId * string :=
  (title e, description e, date e, location e, capacity e, creator e, image e).

(** [router.post('/:id/rsvp')], called at time [now] by [user]. *)
Definition rsvp (st : Store) (id : EventId) (user : UserId) (now : Z)
  : Outcome * Store :=
  let session := startTransaction st in
  match working session !! id with
  | None => (EventNotFound, abortTransaction session)
  | Some event =>
      if date event <? now then (EventEnded, abortTransaction session)
      else if isRegistered user (attendees event)
      then (AlreadyRegistered, abortTransaction session)
      else if Z.of_nat (length (attendees event)) >=? capacity event
      then (Full, abortTransaction session)
      else
        let event' := withAttendees (attendees event ++ [user]) event in
        match saveIn session id (load event') with
        | inl err => (ServerError err, abortTransaction session)
        | inr session' => (Registered, commitTransaction session')
        end
  end.

(** [router.post('/:id/cancel-rsvp')] *)
Definition cancelRsvp (st : Store) (id : EventId) (user : UserId)
  : Outcome * Store :=
  match st !! id with
  | None => (EventNotFound, st)
  | Some event =>
      match findIndex user (attendees event) with
      | None => (NotRegistered, st)
      | Some attendeeIndex =>
          let event' := withAttendees (splice1 attendeeIndex (attendees event)) event in
          match save false st id (load event') with
          | inl err => (ServerError err, st)
          | inr st' => (Cancelled, st')
          end
      end
  end.

(** ** The event registry: creation, edits, deletion and listings *)

(** The fields of [req.body] that the handlers read. *)
Record Body := mkBody {
  body_title : option string;
  body_description : option string;
  body_date : option string;
  body_location : option string;
  body_capacity : option string
}.

Inductive CreateResponse :=
| Created (populatedEvent : option Event)  (* 201 *)
| MissingFields                            (* 400 *)
| CreateFailed (err : SaveError).          (* 500 *)

Inductive UpdateResponse :=
| Updated (updatedEvent : option Event)    (* 200 *)
| UpdateNotFound                           (* 404 *)
| UpdateForbidden                          (* 403 *)
| UpdateFailed (err : SaveError).          (* 500 *)

Inductive DeleteResponse :=
| Deleted                          (* 200 *)
| DeleteNotFound                   (* 404 *)
| DeleteForbidden.                 (* 403 *)

(** [req.file ? `/uploads/${req.file.filename}` : ''] *)
Definition uploadPath (file : option string) : string :=
  match file with
  | Some filename => "/uploads/" +:+ filename
  | None => ""
  end.

(** The string a form field holds, once it is known to be truthy. *)
Definition field (v : option string) : string := default "" v.

Section Registry.

(** Mongoose's cast of a string to a [Date]: the time in milliseconds, or
    [None] when the string is not a date. It rests on the host's date
    parser, which the handlers take as given. *)
Variable castDate : string -> option Z.

(** [router.post('/')]: [newId] is the [_id] that [new Event] draws; the
    response carries what [findById] reads back. *)
Definition createEvent (st : Store) (newId : EventId) (user : UserId)
    (body : Body) (file : option string) : CreateResponse * Store :=
  if negb (JS.truthy (body_title body)) || negb (JS.truthy (body_description body))
     || negb (JS.truthy (body_date body)) || negb (JS.truthy (body_location body))
     || negb (JS.truthy (body_capacity body))
  then (MissingFields, st)
  else
    let eventData :=
      {| doc_title := JS.trim (field (body_title body));
         doc_description := field (body_description body);
         doc_date := castDate (field (body_date body));
         doc_location := JS.trim (field (body_location body));
         doc_capacity := JS.parseInt (field (body_capacity body));
         doc_creator := user;
         doc_attendees := [];
         doc_image := uploadPath file |} in
    match save true st newId eventData with
    | inl err => (CreateFailed err, st)
    | inr st' => (Created (st' !! newId), st')
    end.

(** The "Update fields" block of [router.put('/:id')]: a field of the body
    that is truthy is assigned, through the path's setter and cast. *)
Definition applyEdits (event : Event) (body : Body) (file : option string)
  : Document :=
  let doc := load event in
  {| doc_title :=
       if JS.truthy (body_title body)
       then JS.trim (field (body_title body)) else doc_title doc;
     doc_description :=
       if JS.truthy (body_description body)
       then field (body_description body) else doc_description doc;
     doc_date :=
       if JS.truthy (body_date body)
       then castDate (field (body_date body)) else doc_date doc;
     doc_location :=
       if JS.truthy (body_location body)
       then JS.trim (field (body_location body)) else doc_location doc;
     doc_capacity :=
       if JS.truthy (body_capacity body)
       then JS.parseInt (field (body_capacity body)) else doc_capacity doc;
     doc_image :=
       match file with
       | Some _ => uploadPath file
       | None => doc_image doc
       end;
     doc_attendees := doc_attendees doc;
     doc_creator := doc_creator doc |}.

(** [router.put('/:id')] *)
Definition updateEvent (st : Store) (id : EventId) (user : UserId)
    (body : Body) (file : option string) : UpdateResponse * Store :=
  match st !! id with
  | None => (UpdateNotFound, st)
  | Some event =>
      if negb (String.eqb (creator event) user) then (UpdateForbidden, st)
      else
        match save false st id (applyEdits event body file) with
        | inl err => (UpdateFailed err, st)
        | inr st' => (Updated (st' !! id), st')
        end
  end.

End Registry.

(** [router.delete('/:id')]; the image file it unlinks lives outside the
    collection. *)
Definition deleteEvent (st : Store) (id : EventId) (user : UserId)
  : DeleteResponse * Store :=
  match st !! id with
  | None => (DeleteNotFound, st)
  | Some event =>
      if negb (String.eqb (creator event) user) then (DeleteForbidden, st)
      else (Deleted, delete id st)
  end.

(** *** Listings *)

(** [.sort({ date: 1 })]: ascending by date, documents of equal date in the
    order they come in. *)
Fixpoint insertByDate (x : EventId * Event) (l : list (EventId * Event))
  : list (EventId * Event) :=
  match l with
  | [] => [x]
  | y :: r =>
      if date x.2 <=? date y.2 then x :: l else y :: insertByDate x r
  end.

Fixpoint sortByDate (l : list (EventId * Event)) : list (EventId * Event) :=
  match l with
  | [] => []
  | x :: r => insertByDate x (sortByDate r)
  end.

(** The order of a listing: start times ascend. *)
Definition byDate (x y : EventId * Event) : Prop := date x.2 <= date y.2.

(** [Event.find(query)]: the documents that match, each with its [_id]. *)
Definition find (query : Event -> bool) (st : Store) : list (EventId * Event) :=
  List.filter (fun d => query d.2) (map_to_list st).

(** [router.get('/')] *)
Definition listUpcoming (st : Store) : list (EventId * Event) :=
  sortByDate (find (fun _ => true) st).

(** [router.get('/user/created')]: [{ creator: req.user.id }] *)
Definition listByCreator (st : Store) (user : UserId) : list (EventId * Event) :=
  sortByDate (find (fun e => String.eqb (creator e) user) st).

(** [router.get('/user/attending')]: [{ attendees: req.user.id }] matches a
    document whose array holds the id. *)
Definition listByAttendee (st : Store) (user : UserId) : list (EventId * Event) :=
  sortByDate (find (fun e => existsb (fun a => String.eqb a user) (attendees e)) st).

(** [router.get('/:id')] *)
Definition getEvent (st : Store) (id : EventId) : option Event := st !! id.

(** ** The invariants of the data model *)

(** No more attendees than the capacity allows. *)
Definition withinCapacity (e : Event) : Prop :=
  Z.of_nat (length (attendees e)) <= capacity e.

(** No user is listed twice. *)
Definition distinctAttendees (e : Event) : Prop := NoDup (attendees e).

Definition eventInvariant (e : Event) : Prop :=
  withinCapacity e /\ distinctAttendees e.

(** A property of every stored event. *)
Definition everyEvent (P : Event -> Prop) (st : Store) : Prop :=
  forall id e, st !! id = Some e -> P e.

Definition storeInvariant (st : Store) : Prop := everyEvent eventInvariant st.

(** Every stored event passes the schema's validators. *)
Definition validStore (st : Store) : Prop := everyEvent validEvent st.

(** RSVPs served one after the other, with the outcomes in order. *)
Fixpoint rsvpAll (st : Store) (id : EventId) (users : list UserId) (now : Z)
  : list Outcome * Store :=
  match users with
  | [] => ([], st)
  | user :: rest =>
      let '(o, st1) := rsvp st id user now in
      let '(os, st2) := rsvpAll st1 id rest now in
      (o :: os, st2)
  end.

(** ** Histories *)

(** The requests that change the collection. *)
Inductive Request :=
| Create (newId : EventId) (user : UserId) (body : Body) (file : option string)
| Edit (id : EventId) (user : UserId) (body : Body) (file : option string)
| Remove (id : EventId) (user : UserId)
| Rsvp (id : EventId) (user : UserId) (now : Z)
| CancelRsvp (id : EventId) (user : UserId).

Definition handle (castDate : string -> option Z) (st : Store) (r : Request)
  : Store :=
  match r with
  | Create newId user body file => (createEvent castDate st newId user body file).2
  | Edit id user body file => (updateEvent castDate st id user body file).2
  | Remove id user => (deleteEvent st id user).2
  | Rsvp id user now => (rsvp st id user now).2
  | CancelRsvp id user => (cancelRsvp st id user).2
  end.

(** The collection after the requests of a history, served in order. *)
Definition run (castDate : string -> option Z) (st : Store) (rs : list Request)
  : Store :=
  fold_left (handle castDate) rs st.

(** An edit that sets the capacity. *)
Definition editsCapacity (r : Request) : bool :=
  match r with
  | Edit _ _ body _ => JS.truthy (body_capacity body)
  | _ => false
  end.

(** ** Decimal literals *)

(** A number written with a decimal point, as a capacity field may hold it:
    a sign, the digits before the point and the digits after it. *)
Record Decimal := mkDecimal {
  negative : bool;
  integral : list Z;
  fractional : list Z
}.


Definition digitChar (d : Z) : Ascii.ascii := Ascii.ascii_of_nat (Z.to_nat (48 + d)).

Fixpoint digitString (ds : list Z) : string :=
  match ds with
  | [] => EmptyString
  | d :: r => String (digitChar d) (digitString r)
  end.

(** The text of the literal. *)
Definition render (x : Decimal) : string :=
  (if negative x then "-" else "") +:+ digitString (integral x)
  +:+ "." +:+ digitString (fractional x).

(** The number a row of digits denotes, most significant digit first. *)
Definition digitsValue (ds : list Z) : Z := fold_left (fun acc d => acc * 10 + d) ds 0.

(** The literal denotes [numerator x / 10 ^ length (fractional x)]. *)
Definition numerator (x : Decimal) : Z :=
  (if negative x then -1 else 1) * digitsValue (integral x ++ fractional x).

(** The literal's value with the fraction dropped: rounding toward zero is
    what [Z.quot] does. *)
Definition truncated (x : Decimal) : Z :=
  Z.quot (numerator x) (10 ^ Z.of_nat (length (fractional x))).

(** ** Sample data *)

Module Sample.

Definition isDecimalDigit (c : Ascii.ascii) : bool :=
  let n := Ascii.nat_of_ascii c in (48 <=? n)%nat && (n <=? 57)%nat.

Fixpoint allDecimal (s : string) : bool :=
  match s with
  | String c r => isDecimalDigit c && allDecimal r
  | EmptyString => true
  end.

(** One branch of Mongoose's date cast: a string that holds a number of
    milliseconds, which it takes that way from 275761 on. *)
Definition castMillis (s : string) : option Z :=
  if allDecimal s then
    match JS.readDigits 10 None s with
    | Some ms => if 275761 <=? ms then Some ms else None
    | None => None
    end
  else None.

Definition alice : UserId := "64a0000000000000000000a1".
Definition bob : UserId := "64a0000000000000000000b2".
Definition carol : UserId := "64a0000000000000000000c3".

Definition meetupId : EventId := "64e000000000000000000001".
Definition galaId : EventId := "64e000000000000000000002".

(** A meetup for two, starting at 2000000, with nobody registered. *)
Definition meetup : Event :=
  {| title := "Meetup"; description := "Monthly meetup"; date := 2000000;
     location := "Library"; capacity := 2; attendees := [];
     image := ""; creator := alice |}.

(** A gala for two that is full. *)
Definition gala : Event :=
  {| title := "Gala"; description := "Annual gala"; date := 1500000;
     location := "Town hall"; capacity := 2; attendees := [bob; carol];
     image := "/uploads/gala.png"; creator := alice |}.

Definition store : Store := <[galaId := gala]> {[meetupId := meetup]}.

Definition meetupBody (cap : string) : Body :=
  {| body_title := Some "  Meetup "; body_description := Some "Monthly meetup";
     body_date := Some "2000000"; body_location := Some "Library";
     body_capacity := Some cap |}.

(** An edit that only sets the capacity. *)
Definition capacityEdit (cap : string) : Body :=
  {| body_title := None; body_description := None; body_date := None;
     body_location := None; body_capacity := Some cap |}.

Definition partyId : EventId := "64e000000000000000000003".

(** A history of the collection: alice creates a party for two, bob and
    carol sign up, and alice then edits the capacity down to one. *)
Definition created := createEvent castMillis ∅ partyId alice (meetupBody "2") None.
Definition joined1 := rsvp created.2 partyId bob 1000000.
Definition joined2 := rsvp joined1.2 partyId carol 1000001.
Definition shrunk :=
  updateEvent castMillis joined2.2 partyId alice (capacityEdit "1") None.

End Sample.

(** ** Uploads: the [multer] configuration of [routes/events.js] *)

Module Upload.

(** Whether [word] occurs in [s]. A regular expression that is an
    alternative of plain words, tested without flags, asks for an occurrence
    of one of the words. *)
Fixpoint includes (word s : string) : bool :=
  String.prefix word s
  || match s with
     | String _ r => includes word r
     | EmptyString => false
     end.

(** [/jpeg|jpg|png|gif/.test(s)] *)
Definition filetypes (s : string) : bool :=
  includes "jpeg" s || includes "jpg" s || includes "png" s || includes "gif" s.

Definition lowerChar (c : Ascii.ascii) : Ascii.ascii :=
  let n := Ascii.nat_of_ascii c in
  if (65 <=? n)%nat && (n <=? 90)%nat then Ascii.ascii_of_nat (n + 32) else c.

(** [String.prototype.toLowerCase], on ASCII letters. *)
Fixpoint toLowerCase (s : string) : string :=
  match s with
  | String c r => String (lowerChar c) (toLowerCase r)
  | EmptyString => EmptyString
  end.

Definition isSlash (c : Ascii.ascii) : bool := Ascii.eqb c "/".
Definition isDot (c : Ascii.ascii) : bool := Ascii.eqb c ".".

(** The characters of a path are read from its end, as [path.extname] does:
    trailing slashes are passed over, *)
Fixpoint dropSlashes (l : list Ascii.ascii) : list Ascii.ascii :=
  match l with
  | c :: r => if isSlash c then dropSlashes r else l
  | [] => []
  end.

(** the last portion of the path reaches back to the slash before it, *)
Fixpoint takePortion (l : list Ascii.ascii) : list Ascii.ascii :=
  match l with
  | c :: r => if isSlash c then [] else c :: takePortion r
  | [] => []
  end.

(** and its last dot splits it: what follows the dot, and what precedes it
    ([None] when the portion has no dot). Both are in reading order, that is
    reversed. *)
Fixpoint splitAtDot (l : list Ascii.ascii)
  : list Ascii.ascii * option (list Ascii.ascii) :=
  match l with
  | c :: r =>
      if isDot c then ([], Some r)
      else (c :: (splitAtDot r).1, (splitAtDot r).2)
  | [] => ([], None)
  end.

(** [path.extname] of the POSIX flavour: the last portion of the path from
    its last dot on; empty when the portion has no dot, when its only dot is
    its first character, and when the portion is [..]. *)
Definition extname (path : string) : string :=
  let portion :=
    takePortion (dropSlashes (rev (String.list_ascii_of_string path))) in
  match splitAtDot portion with
  | (_, None) => ""
  | (_, Some []) => ""
  | (after, Some before) =>
      if bool_decide (after = [] /\ before = ["."%char]) then ""
      else String.string_of_list_ascii ("."%char :: rev after)
  end.

(** An uploaded file: its name and type as the client sent them, and its
    size in bytes. *)
Record File := mkFile {
  originalname : string;
  mimetype : string;
  size : N
}.

(** [limits: { fileSize: 5 * 1024 * 1024 }] *)
Definition fileSize : N := 5 * 1024 * 1024.

(** [fileFilter]: [true] accepts the file, [false] is the error
    'Only image files are allowed!'. *)
Definition fileFilter (file : File) : bool :=
  let mimetype := filetypes (mimetype file) in
  let extname := filetypes (toLowerCase (extname (originalname file))) in
  mimetype && extname.

(** [storage.filename]: [now] is [Date.now()] and [random] is
    [Math.round(Math.random() * 1E9)]; both are integers far below the
    range where a number is no longer written with all its digits. *)
Definition filename (now random : N) (file : File) : string :=
  let uniqueSuffix := pretty now +:+ "-" +:+ pretty random in
  uniqueSuffix +:+ extname (originalname file).

(** [upload.single('image')], for a request that may carry a file. The
    result is what the handler finds as [req.file.filename]: [Some None] for
    a request without a file, the stored name of a file that passes the
    filter and is not larger than the limit, and [None] when multer ends
    the request with an error (a file that the filter refuses, or one that
    exceeds the limit). *)
Definition single (now random : N) (file : option File) : option (option string) :=
  match file with
  | None => Some None
  | Some f =>
      if negb (fileFilter f) then None
      else if (fileSize <? size f)%N then None
      else Some (Some (filename now random f))
  end.

End Upload.

(** *** Properties of characters, for what a stored name is made of *)

(** Every character of the string passes the test. *)
Fixpoint everyChar (P : Ascii.ascii -> bool) (s : string) : bool :=
  match s with
  | String c r => P c && everyChar P r
  | EmptyString => true
  end.

Definition isDigitChar (c : Ascii.ascii) : bool :=
  let n := Ascii.nat_of_ascii c in (48 <=? n)%nat && (n <=? 57)%nat.

Definition notSlash (c : Ascii.ascii) : bool := negb (Upload.isSlash c).

Definition notSlashNorDot (c : Ascii.ascii) : bool :=
  negb (Upload.isSlash c) && negb (Upload.isDot c).

(** A string that does not begin with a digit. *)
Definition digitless (s : string) : Prop :=
  match s with
  | String c _ => isDigitChar c = false
  | EmptyString => True
  end.


(** ** The events page: [frontend/src/pages/EventsList.js] *)

Module EventsList.

(** [getAvailableSpots] *)
Definition getAvailableSpots (event : Event) : Z :=
  capacity event - Z.of_nat (length (attendees event)).

(** [isEventFull] *)
Definition isEventFull (event : Event) : bool :=
  Z.of_nat (length (attendees event)) >=? capacity event.

(** [isUserRegistered]: [user] is the logged-in user's id, [None] when
    nobody is logged in. The page gets the attendees as bare ids, so that
    [attendee._id] is undefined and [attendee === user.id] decides. *)
Definition isUserRegistered (user : option UserId) (event : Event) : bool :=
  match user with
  | None => false
  | Some id => existsb (fun attendee => String.eqb attendee id) (attendees event)
  end.

(** The footer of an event card. *)
Inductive Badge :=
| BadgeFull
| BadgeAvailable (spots : Z).

Definition badge (event : Event) : Badge :=
  if isEventFull event then BadgeFull
  else BadgeAvailable (getAvailableSpots event).

End EventsList.

(** ** The creation form: [CreateEvent] in [frontend/src/App.js] *)

Module CreateForm.

(** [formData]; every field starts as the empty string. *)
Record FormData := mkFormData {
  form_title : string;
  form_description : string;
  form_date : string;
  form_location : string;
  form_capacity : string
}.

(** What [handleSubmit] does with the form. *)
Inductive Submission :=
| ToLogin
| ShowError (message : string)
| Post (body : Body) (image : option Upload.File).

Definition empty (v : string) : bool := String.eqb v "".

(** The request body that [FormData] carries: the five fields, as typed. *)
Definition payload (f : FormData) : Body :=
  {| body_title := Some (form_title f);
     body_description := Some (form_description f);
     body_date := Some (form_date f);
     body_location := Some (form_location f);
     body_capacity := Some (form_capacity f) |}.

(** [parseInt(formData.capacity) < 1]; a comparison with [NaN] is false. *)
Definition capacityBelowOne (f : FormData) : bool :=
  match JS.parseInt (form_capacity f) with
  | Some c => c <? 1
  | None => false
  end.


(** [handleSubmit] *)
Definition handleSubmit (user : option UserId) (f : FormData)
    (image : option Upload.File) : Submission :=
  match user with
  | None => ToLogin
  | Some _ =>
      if empty (form_title f) || empty (form_description f)
         || empty (form_date f) || empty (form_location f)
         || empty (form_capacity f)
      then ShowError "Please fill in all fields"
      else if capacityBelowOne f
      then ShowError "Capacity must be at least 1"
      else Post (payload f) image
  end.

End CreateForm.

(** ** Attempts on the registration engine *)

(** A request to join or to leave an event. *)
Inductive Attempt :=
| Join (user : UserId) (now : Z)
| Leave (user : UserId).

Definition attempt (st : Store) (id : EventId) (a : Attempt) : Outcome * Store :=
  match a with
  | Join user now => rsvp st id user now
  | Leave user => cancelRsvp st id user
  end.

(** A string of white space only (the empty string included). *)
Fixpoint blank (s : string) : bool :=
  match s with
  | String c r => JS.isWhiteSpace c && blank r
  | EmptyString => true
  end.

(** The text fields of an event are stored as [trim] leaves them. *)
Definition trimmedEvent (e : Event) : Prop :=
  JS.trim (title e) = title e /\ JS.trim (location e) = location e.

(** ** The model on sample inputs *)

Example parseInt_5_9 : JS.parseInt "5.9" = Some 5.
Proof. reflexivity. Qed.
Example parseInt_neg : JS.parseInt "  -12abc" = Some (-12).
Proof. reflexivity. Qed.
Example parseInt_hex : JS.parseInt "0x1F" = Some 31.
Proof. reflexivity. Qed.
Example parseInt_nan : JS.parseInt "abc" = None.
Proof. reflexivity. Qed.
Example parseInt_empty : JS.parseInt "" = None.
Proof. reflexivity. Qed.
Example parseInt_exponent : JS.parseInt "1e-5" = Some 1.
Proof. reflexivity. Qed.
Example trim_ex : JS.trim "  a b  " = "a b".
Proof. reflexivity. Qed.

Example sample_rsvp :
  rsvp Sample.store Sample.meetupId Sample.bob 1000000
  = (Registered,
     <[Sample.meetupId := withAttendees [Sample.bob] Sample.meetup]> Sample.store).
Proof. vm_compute. reflexivity. Qed.

(** The gala is full and lists bob: he is told so before the capacity is
    looked at, and after the start the date is all that counts. *)
Example sample_precedence :
  (rsvp Sample.store Sample.galaId Sample.bob 1000000).1 = AlreadyRegistered /\
  (rsvp Sample.store Sample.galaId Sample.alice 1000000).1 = Full /\
  (rsvp Sample.store Sample.galaId Sample.bob 1500001).1 = EventEnded /\
  (rsvp Sample.store Sample.galaId Sample.bob 1500000).1 = AlreadyRegistered.
Proof. repeat split; vm_compute; reflexivity. Qed.

Example sample_cancel :
  cancelRsvp Sample.store Sample.galaId Sample.bob
  = (Cancelled,
     <[Sample.galaId := withAttendees [Sample.carol] Sample.gala]> Sample.store).
Proof. vm_compute. reflexivity. Qed.

Example sample_edit_forbidden :
  updateEvent Sample.castMillis Sample.store Sample.galaId Sample.bob
    (Sample.capacityEdit "5") None
  = (UpdateForbidden, Sample.store).
Proof. vm_compute. reflexivity. Qed.

(** ** Attendee lists *)

Lemma isRegistered_true user l : isRegistered user l = true <-> user ∈ l.
Proof.
  unfold isRegistered. rewrite existsb_exists. split.
  - intros (a & Hin & Heq). apply String.eqb_eq in Heq. subst.
    by apply list_elem_of_In.
  - intros Hin. exists user. split; [by apply list_elem_of_In|].
    apply String.eqb_refl.
Qed.

Lemma isRegistered_false user l : isRegistered user l = false <-> user ∉ l.
Proof.
  rewrite <- isRegistered_true. destruct (isRegistered user l); naive_solver.
Qed.

Lemma findIndex_None user l : findIndex user l = None <-> user ∉ l.
Proof.
  induction l as [|a l IH]; simpl.
  - split; [intros _; apply not_elem_of_nil | done].
  - destruct (String.eqb_spec a user) as [->|Hne].
    + split; [done | intros []; left].
    + rewrite fmap_None, IH, not_elem_of_cons. split; [by split | by intros []].
Qed.

(** [findIndex] finds the first occurrence, and [splice1] takes it out. *)
Lemma findIndex_Some user l i :
  findIndex user l = Some i ->
  exists l1 l2, l = l1 ++ (user :: l2) /\ (user ∉ l1) /\ length l1 = i
                /\ splice1 i l = l1 ++ l2.
Proof.
  revert i. induction l as [|a l IH]; simpl; intros i Hi; [done|].
  destruct (String.eqb_spec a user) as [->|Hne].
  - injection Hi as <-. exists [], l. repeat split; try done.
    apply not_elem_of_nil.
  - apply fmap_Some in Hi as (j & Hj & ->).
    destruct (IH j Hj) as (l1 & l2 & -> & Hnin & Hlen & Hsp).
    exists (a :: l1), l2. repeat split.
    + apply not_elem_of_cons. split; [congruence | done].
    + simpl. by rewrite Hlen.
    + unfold splice1 in *. simpl. by rewrite Hsp.
Qed.

Lemma findIndex_is_Some user l : user ∈ l -> is_Some (findIndex user l).
Proof.
  intros Hin. destruct (findIndex user l) eqn:E; [by eexists|].
  by apply findIndex_None in E.
Qed.

(** ** Saving *)

Lemma toEvent_load e : toEvent (load e) = Some e.
Proof. by destruct e. Qed.

Lemma toEvent_Some d e :
  toEvent d = Some e ->
  doc_date d = Some (date e) /\ doc_capacity d = Some (capacity e) /\
  attendees e = doc_attendees d /\ creator e = doc_creator d.
Proof.
  unfold toEvent. destruct (doc_date d), (doc_capacity d); try done.
  by intros [= <-].
Qed.

Lemma validate_withAttendees l e :
  validate (load (withAttendees l e)) = validate (load e).
Proof. done. Qed.

Lemma validEvent_withAttendees l e : validEvent e -> validEvent (withAttendees l e).
Proof. done. Qed.

Lemma save_loaded st id e :
  validEvent e -> save false st id (load e) = inr (<[id := e]> st).
Proof.
  intros Hv. unfold save. rewrite Hv, toEvent_load. done.
Qed.

(** A save either fails and leaves the store alone (there is no store in
    the failure) or writes exactly one document that passes validation. *)
Lemma save_inr isNew st id d st' :
  save isNew st id d = inr st' ->
  exists e, toEvent d = Some e /\ validate d = [] /\ st' = <[id := e]> st
            /\ (isNew = true -> st !! id = None).
Proof.
  unfold save. destruct (validate d) eqn:Hv; [|done].
  destruct (toEvent d) as [e|] eqn:He; [|done].
  destruct isNew; simpl.
  - case_bool_decide as Hs; [done|]. intros [= <-]. exists e.
    repeat split; try done. intros _.
    destruct (st !! id) eqn:E; [|done]. exfalso. apply Hs. by eexists.
  - intros [= <-]. exists e. repeat split; done.
Qed.

Lemma validEvent_of_toEvent d e :
  toEvent d = Some e -> validate d = [] -> validEvent e.
Proof.
  unfold toEvent, validEvent. destruct d as [t ds dt l c a i cr]; simpl.
  destruct dt, c; try done. intros [= <-]. done.
Qed.

(** ** RSVP and cancellation, case by case *)

Lemma rsvp_not_found st id user now :
  st !! id = None -> rsvp st id user now = (EventNotFound, st).
Proof. intros H. unfold rsvp. simpl. by rewrite H. Qed.


Lemma rsvp_already st id user now e :
  st !! id = Some e -> now <= date e -> user ∈ attendees e ->
  rsvp st id user now = (AlreadyRegistered, st).
Proof.
  intros H Hd Hin. unfold rsvp. simpl. rewrite H.
  rewrite (proj2 (Z.ltb_ge _ _) Hd).
  by rewrite (proj2 (isRegistered_true _ _) Hin).
Qed.

Lemma rsvp_full st id user now e :
  st !! id = Some e -> now <= date e -> user ∉ attendees e ->
  capacity e <= Z.of_nat (length (attendees e)) ->
  rsvp st id user now = (Full, st).
Proof.
  intros H Hd Hin Hc. unfold rsvp. simpl. rewrite H.
  rewrite (proj2 (Z.ltb_ge _ _) Hd).
  rewrite (proj2 (isRegistered_false _ _) Hin).
  by rewrite (proj2 (Z.geb_le _ _) Hc).
Qed.

Lemma rsvp_registered st id user now e :
  st !! id = Some e -> now <= date e -> user ∉ attendees e ->
  Z.of_nat (length (attendees e)) < capacity e -> validEvent e ->
  rsvp st id user now
  = (Registered, <[id := withAttendees (attendees e ++ [user]) e]> st).
Proof.
  intros H Hd Hin Hc Hv. unfold rsvp. simpl. rewrite H.
  rewrite (proj2 (Z.ltb_ge _ _) Hd).
  rewrite (proj2 (isRegistered_false _ _) Hin).
  destruct (Z.geb_spec (Z.of_nat (length (attendees e))) (capacity e)); [lia|].
  unfold saveIn. simpl.
  rewrite save_loaded; [done|]. by apply validEvent_withAttendees.
Qed.

Lemma cancel_not_found st id user :
  st !! id = None -> cancelRsvp st id user = (EventNotFound, st).
Proof. intros H. unfold cancelRsvp. by rewrite H. Qed.

Lemma cancel_not_registered st id user e :
  st !! id = Some e -> user ∉ attendees e ->
  cancelRsvp st id user = (NotRegistered, st).
Proof.
  intros H Hin. unfold cancelRsvp. rewrite H.
  by rewrite (proj2 (findIndex_None _ _) Hin).
Qed.

Lemma cancel_cancelled st id user e :
  st !! id = Some e -> user ∈ attendees e -> validEvent e ->
  exists l1 l2,
    attendees e = l1 ++ (user :: l2) /\ (user ∉ l1) /\
    cancelRsvp st id user = (Cancelled, <[id := withAttendees (l1 ++ l2) e]> st).
Proof.
  intros H Hin Hv. unfold cancelRsvp. rewrite H.
  destruct (findIndex_is_Some _ _ Hin) as [i Hi]. rewrite Hi.
  destruct (findIndex_Some _ _ _ Hi) as (l1 & l2 & Hl & Hnin & _ & Hsp).
  exists l1, l2. repeat split; try done.
  rewrite Hsp, save_loaded; [done|]. by apply validEvent_withAttendees.
Qed.

(** *** Inversion: what a success tells about the store before *)

Lemma rsvp_Registered_inv st id user now st' :
  rsvp st id user now = (Registered, st') ->
  exists e,
    st !! id = Some e /\ now <= date e /\ (user ∉ attendees e) /\
    Z.of_nat (length (attendees e)) < capacity e /\ validEvent e /\
    st' = <[id := withAttendees (attendees e ++ [user]) e]> st.
Proof.
  unfold rsvp. simpl. destruct (st !! id) as [e|] eqn:He; [|done].
  destruct (Z.ltb_spec (date e) now); [done|].
  destruct (isRegistered user (attendees e)) eqn:Hreg; [done|].
  destruct (Z.geb_spec (Z.of_nat (length (attendees e))) (capacity e)); [done|].
  unfold saveIn. simpl.
  destruct (save false st id _) as [err|w] eqn:Hs; [done|].
  simpl. intros [= <-]. exists e.
  apply save_inr in Hs as (e' & He' & Hv & -> & _).
  rewrite toEvent_load in He'. injection He' as <-.
  repeat split; try done; try lia.
  by apply isRegistered_false.
Qed.

Lemma rsvp_rejected st id user now o st' :
  rsvp st id user now = (o, st') -> o <> Registered -> st' = st.
Proof.
  unfold rsvp. simpl. destruct (st !! id) as [e|]; [|by intros [= <- <-]].
  destruct (date e <? now); [by intros [= <- <-]|].
  destruct (isRegistered user (attendees e)); [by intros [= <- <-]|].
  destruct (_ >=? _); [by intros [= <- <-]|].
  unfold saveIn. destruct (save false _ id _); simpl; intros [= <- <-]; done.
Qed.

Lemma cancel_Cancelled_inv st id user st' :
  cancelRsvp st id user = (Cancelled, st') ->
  exists e l1 l2,
    st !! id = Some e /\ attendees e = l1 ++ (user :: l2) /\ (user ∉ l1) /\
    validEvent e /\ st' = <[id := withAttendees (l1 ++ l2) e]> st.
Proof.
  unfold cancelRsvp. destruct (st !! id) as [e|] eqn:He; [|done].
  destruct (findIndex user (attendees e)) as [i|] eqn:Hi; [|done].
  destruct (save false st id _) as [err|w] eqn:Hs; [done|].
  intros [= <-].
  destruct (findIndex_Some _ _ _ Hi) as (l1 & l2 & Hl & Hnin & _ & Hsp).
  apply save_inr in Hs as (e' & He' & Hv & -> & _).
  rewrite toEvent_load in He'. injection He' as <-.
  exists e, l1, l2. rewrite Hsp. repeat split; done.
Qed.

Lemma cancel_rejected st id user o st' :
  cancelRsvp st id user = (o, st') -> o <> Cancelled -> st' = st.
Proof.
  unfold cancelRsvp. destruct (st !! id) as [e|]; [|by intros [= <- <-]].
  destruct (findIndex user (attendees e)); [|by intros [= <- <-]].
  destruct (save false st id _); intros [= <- <-]; done.
Qed.

(** *** The outcomes that can occur *)



(** ** The registration engine meets its description *)



(** C4. An attempt that is turned down changes nothing: whenever an RSVP
    ends in anything but [Registered], or a cancellation in anything but
    [Cancelled], the collection (every event, attendees and all other
    fields) is the one from before the attempt. *)
Theorem rejected_attempt_no_mutation st id user now o st' :
  (rsvp st id user now = (o, st') /\ o <> Registered) \/
  (cancelRsvp st id user = (o, st') /\ o <> Cancelled) ->
  st' = st.
Proof.
  intros [[H Ho]|[H Ho]].
  - by eapply rsvp_rejected.
  - by eapply cancel_rejected.
Qed.

Lemma rejected_attempt_no_mutation_witness :
  snd (rsvp Sample.store Sample.galaId Sample.alice 1000000) = Sample.store
  /\ snd (cancelRsvp Sample.store Sample.galaId Sample.alice) = Sample.store.
Proof.
  split.
  - apply (rejected_attempt_no_mutation Sample.store Sample.galaId Sample.alice
             1000000 Full).
    left. split; [reflexivity | discriminate].
  - apply (rejected_attempt_no_mutation Sample.store Sample.galaId Sample.alice
             0 NotRegistered).
    right. split; [reflexivity | discriminate].
Defined.

(** C5. When the event has not started, has room left and does not list
    the user, two RSVPs in a row by that user give [Registered] and then
    [AlreadyRegistered], and the event ends up with exactly one attendee
    more than before. *)
Theorem rsvp_twice st id user now1 now2 e :
  st !! id = Some e -> validEvent e ->
  now1 <= date e -> now2 <= date e ->
  user ∉ attendees e ->
  Z.of_nat (length (attendees e)) < capacity e ->
  let first := rsvp st id user now1 in
  let second := rsvp first.2 id user now2 in
  first.1 = Registered /\ second.1 = AlreadyRegistered /\
  exists e2, second.2 !! id = Some e2 /\
             attendees e2 = attendees e ++ [user] /\
             length (attendees e2) = S (length (attendees e)).
Proof.
  intros He Hv H1 H2 Hin Hc first second. subst first second.
  rewrite (rsvp_registered st id user now1 e) by done. cbn [fst snd].
  set (e1 := withAttendees (attendees e ++ [user]) e).
  rewrite (rsvp_already _ id user now2 e1).
  - cbn [fst snd]. repeat split. exists e1. rewrite lookup_insert_eq.
    repeat split. subst e1. cbn [attendees withAttendees].
    rewrite length_app. simpl. lia.
  - apply lookup_insert_eq.
  - done.
  - subst e1. cbn [attendees withAttendees].
    apply elem_of_app. right. by apply list_elem_of_singleton.
Qed.

Lemma rsvp_twice_witness :
  (rsvp Sample.store Sample.meetupId Sample.bob 1000000).1 = Registered /\
  (rsvp (rsvp Sample.store Sample.meetupId Sample.bob 1000000).2
        Sample.meetupId Sample.bob 1000001).1 = AlreadyRegistered.
Proof.
  pose proof (rsvp_twice Sample.store Sample.meetupId Sample.bob 1000000 1000001
                Sample.meetup) as H.
  simpl in H.
  destruct H as (H1 & H2 & _).
  - reflexivity.
  - reflexivity.
  - lia.
  - lia.
  - apply not_elem_of_nil.
  - lia.
  - split; [exact H1 | exact H2].
Defined.





(** ** Listings *)

Global Instance byDate_transitive : Transitive byDate.
Proof. intros x y z. unfold byDate. lia. Qed.

Lemma insertByDate_Permutation x l : insertByDate x l ≡ₚ x :: l.
Proof.
  induction l as [|y l IH]; simpl; [done|].
  destruct (date x.2 <=? date y.2); [done|].
  rewrite IH. apply Permutation_swap.
Qed.

Lemma sortByDate_Permutation l : sortByDate l ≡ₚ l.
Proof.
  induction l as [|x l IH]; simpl; [done|].
  by rewrite insertByDate_Permutation, IH.
Qed.

Lemma insertByDate_HdRel a x l :
  byDate a x -> HdRel byDate a l -> HdRel byDate a (insertByDate x l).
Proof.
  intros Hax Hal. destruct l as [|y l]; simpl; [by constructor|].
  destruct (date x.2 <=? date y.2); constructor; [done|].
  by inversion Hal.
Qed.

Lemma insertByDate_Sorted x l :
  Sorted byDate l -> Sorted byDate (insertByDate x l).
Proof.
  induction 1 as [|y l Hs IH Hhd]; simpl; [by repeat constructor|].
  destruct (Z.leb_spec (date x.2) (date y.2)) as [Hle|Hgt].
  - constructor; [by constructor|]. by constructor.
  - constructor; [done|]. apply insertByDate_HdRel; [|done].
    unfold byDate. lia.
Qed.

Lemma sortByDate_Sorted l : Sorted byDate (sortByDate l).
Proof.
  induction l as [|x l IH]; simpl; [constructor|].
  by apply insertByDate_Sorted.
Qed.

Lemma find_elem_of query st id e :
  (id, e) ∈ find query st <-> st !! id = Some e /\ query e = true.
Proof.
  unfold find. rewrite list_elem_of_In, filter_In, <- list_elem_of_In.
  by rewrite elem_of_map_to_list.
Qed.

Lemma find_NoDup query st : NoDup (find query st).
Proof.
  unfold find. apply NoDup_ListNoDup, List.NoDup_filter, NoDup_ListNoDup.
  apply NoDup_map_to_list.
Qed.

Lemma listing_spec query st :
  StronglySorted byDate (sortByDate (find query st)) /\
  NoDup (sortByDate (find query st)) /\
  forall id e,
    (id, e) ∈ sortByDate (find query st) <-> st !! id = Some e /\ query e = true.
Proof.
  split; [apply Sorted_StronglySorted; [apply _ | apply sortByDate_Sorted]|].
  split.
  - rewrite sortByDate_Permutation. apply find_NoDup.
  - intros id e. rewrite sortByDate_Permutation. apply find_elem_of.
Qed.

(** C8. Each listing is sorted by start time, ascending (every element
    starts no later than all that follow it), and holds each matching
    document once: [listUpcoming] all stored events, [listByCreator] exactly
    those whose creator is the user, [listByAttendee] exactly those whose
    attendees contain the user. *)
Theorem listings_sorted_and_exact st user :
  (StronglySorted byDate (listUpcoming st) /\
   NoDup (listUpcoming st) /\
   forall id e, (id, e) ∈ listUpcoming st <-> st !! id = Some e) /\
  (StronglySorted byDate (listByCreator st user) /\
   NoDup (listByCreator st user) /\
   forall id e, (id, e) ∈ listByCreator st user
                <-> st !! id = Some e /\ creator e = user) /\
  (StronglySorted byDate (listByAttendee st user) /\
   NoDup (listByAttendee st user) /\
   forall id e, (id, e) ∈ listByAttendee st user
                <-> st !! id = Some e /\ user ∈ attendees e).
Proof.
  split; [|split].
  - destruct (listing_spec (fun _ => true) st) as (Hs & Hn & Hm).
    repeat split; try done.
    + intros H. by apply Hm in H as [? _].
    + intros H. by apply Hm.
  - destruct (listing_spec (fun e => String.eqb (creator e) user) st)
      as (Hs & Hn & Hm).
    repeat split; try done.
    + by apply Hm in H as [? _].
    + apply Hm in H as [_ H]. by apply String.eqb_eq.
    + intros [H1 H2]. apply Hm. split; [done|]. by apply String.eqb_eq.
  - destruct (listing_spec
                (fun e => existsb (fun a => String.eqb a user) (attendees e)) st)
      as (Hs & Hn & Hm).
    repeat split; try done.
    + by apply Hm in H as [? _].
    + apply Hm in H as [_ H]. by apply isRegistered_true.
    + intros [H1 H2]. apply Hm. split; [done|]. by apply isRegistered_true.
Qed.

Example listUpcoming_sample :
  listUpcoming Sample.store
  = [(Sample.galaId, Sample.gala); (Sample.meetupId, Sample.meetup)].
Proof. vm_compute. reflexivity. Qed.

Example listByAttendee_sample :
  listByAttendee Sample.store Sample.carol = [(Sample.galaId, Sample.gala)].
Proof. vm_compute. reflexivity. Qed.

(** ** Reading a capacity *)










Example truncated_5_9 : truncated (mkDecimal false [5] [9]) = 5.
Proof. reflexivity. Qed.
Example truncated_neg_5_9 : truncated (mkDecimal true [5] [9]) = -5.
Proof. reflexivity. Qed.
Example render_5_9 : render (mkDecimal false [5] [9]) = "5.9".
Proof. reflexivity. Qed.

(** ** Creating and editing events *)

Lemma truthy_Some s : s <> "" -> JS.truthy (Some s) = true.
Proof. intros H. simpl. by destruct (String.eqb_spec s ""). Qed.





(** A capacity below 1 stops every save, with the [min] validator's error. *)
Lemma save_capacity_min isNew st id d c :
  doc_capacity d = Some c -> c < 1 ->
  exists errors,
    save isNew st id d = inl (ValidationError errors) /\ ("capacity", Min) ∈ errors.
Proof.
  intros Hc Hlt.
  assert (Hin : ("capacity", Min) ∈ validate d).
  { unfold validate. rewrite Hc. simpl.
    destruct (Z.ltb_spec c 1); [|lia].
    rewrite !elem_of_app. do 4 right. by apply list_elem_of_singleton. }
  unfold save. destruct (validate d) as [|pe errors].
  - by apply not_elem_of_nil in Hin.
  - by exists (pe :: errors).
Qed.


Lemma requiredString_nil path v : requiredString path v = [] <-> v <> "".
Proof.
  unfold requiredString. destruct (String.eqb_spec v ""); split; done.
Qed.

Lemma validCapacity_nil c : validCapacity (Some c) = [] <-> 1 <= c.
Proof. simpl. destruct (Z.ltb_spec c 1); split; try done; lia. Qed.

(** What schema validity says about a stored event. *)
Lemma validEvent_fields e :
  validEvent e <->
  title e <> "" /\ description e <> "" /\ location e <> "" /\ 1 <= capacity e.
Proof.
  unfold validEvent, validate. cbn [load doc_title doc_description doc_date
    doc_location doc_capacity validDate].
  rewrite !app_nil, !requiredString_nil, validCapacity_nil.
  split; [intros (? & ? & _ & ? & ?) | intros (? & ? & ? & ?)]; done.
Qed.

Section RegistryFacts.

Variable castDate : string -> option Z.

Lemma createEvent_missing st newId user body file :
  JS.truthy (body_title body) && JS.truthy (body_description body)
  && JS.truthy (body_date body) && JS.truthy (body_location body)
  && JS.truthy (body_capacity body) = false ->
  createEvent castDate st newId user body file = (MissingFields, st).
Proof.
  intros H. unfold createEvent.
  destruct (JS.truthy (body_title body)), (JS.truthy (body_description body)),
    (JS.truthy (body_date body)), (JS.truthy (body_location body)),
    (JS.truthy (body_capacity body)); done.
Qed.


(** A creation that is not accepted stores nothing. *)
Lemma createEvent_Created_inv st newId user body file ev st' :
  createEvent castDate st newId user body file = (Created ev, st') ->
  exists e,
    ev = Some e /\ st' = <[newId := e]> st /\ st !! newId = None /\
    validEvent e /\ attendees e = [] /\ creator e = user /\
    JS.parseInt (field (body_capacity body)) = Some (capacity e).
Proof.
  unfold createEvent. destruct (_ || _); [done|].
  destruct (save true st newId _) as [err|w] eqn:Hs; [done|].
  intros [= <- <-].
  apply save_inr in Hs as (e & He & Hv & -> & Hnew).
  exists e. rewrite lookup_insert_eq.
  destruct (toEvent_Some _ _ He) as (_ & Hc & Ha & Hcr).
  repeat split; try done.
  - by apply Hnew.
  - by eapply validEvent_of_toEvent.
Qed.

Lemma createEvent_rejected st newId user body file r st' :
  createEvent castDate st newId user body file = (r, st') ->
  (forall ev, r <> Created ev) -> st' = st.
Proof.
  unfold createEvent. destruct (_ || _); [by intros [= <- <-]|].
  destruct (save true st newId _) as [err|w]; intros [= <- <-] Hr; [done|].
  by destruct (Hr (w !! newId)).
Qed.

(** A capacity that reads below 1 is never stored by a creation. *)
Lemma createEvent_low_capacity st newId user body file cap c :
  body_capacity body = Some cap -> JS.parseInt cap = Some c -> c < 1 ->
  createEvent castDate st newId user body file = (MissingFields, st) \/
  exists errors,
    createEvent castDate st newId user body file
    = (CreateFailed (ValidationError errors), st) /\
    ("capacity", Min) ∈ errors.
Proof.
  intros Hcap Hc Hlt. unfold createEvent. destruct (_ || _); [by left|]. right.
  rewrite Hcap. cbn [field default from_option id].
  match goal with
  | |- context [save true st newId ?d] =>
      destruct (save_capacity_min true st newId d c) as (errors & -> & Hin);
      [by simpl | done | by exists errors]
  end.
Qed.


End RegistryFacts.


Section EditFacts.

Variable castDate : string -> option Z.

Lemma updateEvent_success st id user body file e e' :
  st !! id = Some e -> creator e = user ->
  validate (applyEdits castDate e body file) = [] ->
  toEvent (applyEdits castDate e body file) = Some e' ->
  updateEvent castDate st id user body file
  = (Updated (Some e'), <[id := e']> st).
Proof.
  intros He Hcr Hv Ht. unfold updateEvent. rewrite He, Hcr, String.eqb_refl.
  cbn [negb]. unfold save. rewrite Hv, Ht. cbn [andb].
  by rewrite lookup_insert_eq.
Qed.

(** An edit that is not saved changes nothing; one that is saved keeps
    the attendees and the creator, and leaves a valid event. *)
Lemma updateEvent_inv st id user body file r st' :
  updateEvent castDate st id user body file = (r, st') ->
  st' = st \/
  exists e e',
    st !! id = Some e /\ st' = <[id := e']> st /\ r = Updated (Some e') /\
    validEvent e' /\ attendees e' = attendees e /\ creator e' = creator e /\
    doc_capacity (applyEdits castDate e body file) = Some (capacity e').
Proof.
  unfold updateEvent. destruct (st !! id) as [e|] eqn:He; [|intros [= <- <-]; by left].
  destruct (negb _); [intros [= <- <-]; by left|].
  destruct (save false st id _) as [err|w] eqn:Hs; intros [= <- <-]; [by left|].
  right. apply save_inr in Hs as (e' & He' & Hv & -> & _).
  exists e, e'. rewrite lookup_insert_eq.
  destruct (toEvent_Some _ _ He') as (_ & Hc & Ha & Hcr).
  repeat split; try done.
  by eapply validEvent_of_toEvent.
Qed.




End EditFacts.


(** ** The invariants along the operations *)

Lemma everyEvent_empty P : everyEvent P ∅.
Proof. intros id e. by rewrite lookup_empty. Qed.

Lemma everyEvent_insert P st id e :
  everyEvent P st -> P e -> everyEvent P (<[id := e]> st).
Proof.
  intros Hst He id' e'. destruct (decide (id = id')) as [->|Hne].
  - rewrite lookup_insert_eq. by intros [= <-].
  - rewrite lookup_insert_ne by done. apply Hst.
Qed.

Lemma everyEvent_delete P st id : everyEvent P st -> everyEvent P (delete id st).
Proof.
  intros Hst id' e' H. apply lookup_delete_Some in H as [_ H]. by eapply Hst.
Qed.

Lemma storeInvariant_split st :
  storeInvariant st <->
  everyEvent withinCapacity st /\ everyEvent distinctAttendees st.
Proof.
  split.
  - intros H. split; intros id e He; by destruct (H id e He).
  - intros [H1 H2] id e He. split; [by eapply H1 | by eapply H2].
Qed.

(** *** RSVP: the capacity check guards the append, and the membership
    check keeps the list free of duplicates. *)

Lemma rsvp_bounded st id user now :
  everyEvent withinCapacity st -> everyEvent withinCapacity (rsvp st id user now).2.
Proof.
  intros Hst. destruct (rsvp st id user now) as [o st'] eqn:Hr.
  destruct o; try (rewrite (rsvp_rejected _ _ _ _ _ _ Hr); done).
  apply rsvp_Registered_inv in Hr as (e & He & _ & Hnin & Hc & _ & ->).
  apply everyEvent_insert; [done|].
  unfold withinCapacity. cbn [attendees capacity withAttendees].
  rewrite length_app. cbn [length]. lia.
Qed.

Lemma rsvp_distinct st id user now :
  everyEvent distinctAttendees st ->
  everyEvent distinctAttendees (rsvp st id user now).2.
Proof.
  intros Hst. destruct (rsvp st id user now) as [o st'] eqn:Hr.
  destruct o; try (rewrite (rsvp_rejected _ _ _ _ _ _ Hr); done).
  apply rsvp_Registered_inv in Hr as (e & He & _ & Hnin & Hc & _ & ->).
  apply everyEvent_insert; [done|].
  unfold distinctAttendees. cbn [attendees withAttendees].
  apply NoDup_app. repeat split; [by apply (Hst id e)| |apply NoDup_singleton].
  intros x Hx Hx'. apply list_elem_of_singleton in Hx'. by subst.
Qed.

(** *** Cancellation only shortens the list. *)

Lemma cancel_bounded st id user :
  everyEvent withinCapacity st -> everyEvent withinCapacity (cancelRsvp st id user).2.
Proof.
  intros Hst. destruct (cancelRsvp st id user) as [o st'] eqn:Hr.
  destruct o; try (rewrite (cancel_rejected _ _ _ _ _ Hr); done).
  apply cancel_Cancelled_inv in Hr as (e & l1 & l2 & He & Hl & _ & _ & ->).
  apply everyEvent_insert; [done|].
  pose proof (Hst id e He) as Hc. unfold withinCapacity in *.
  cbn [attendees capacity withAttendees]. rewrite Hl in Hc.
  rewrite length_app in *. cbn [length] in Hc. lia.
Qed.

Lemma cancel_distinct st id user :
  everyEvent distinctAttendees st ->
  everyEvent distinctAttendees (cancelRsvp st id user).2.
Proof.
  intros Hst. destruct (cancelRsvp st id user) as [o st'] eqn:Hr.
  destruct o; try (rewrite (cancel_rejected _ _ _ _ _ Hr); done).
  apply cancel_Cancelled_inv in Hr as (e & l1 & l2 & He & Hl & _ & _ & ->).
  apply everyEvent_insert; [done|].
  pose proof (Hst id e He) as Hnd. unfold distinctAttendees in *.
  cbn [attendees withAttendees]. rewrite Hl in Hnd.
  apply NoDup_app in Hnd as (H1 & H2 & H3). apply NoDup_cons in H3 as [_ H3].
  apply NoDup_app. repeat split; [done| |done].
  intros x Hx Hx'. apply (H2 x Hx). by right.
Qed.

(** *** Creation starts from no attendees and a capacity of at least 1. *)

Lemma create_bounded castDate st newId user body file :
  everyEvent withinCapacity st ->
  everyEvent withinCapacity (createEvent castDate st newId user body file).2.
Proof.
  intros Hst. destruct (createEvent castDate st newId user body file)
    as [r st'] eqn:Hr.
  destruct r as [ev| |err];
    try (rewrite (createEvent_rejected _ _ _ _ _ _ _ _ Hr); done).
  apply createEvent_Created_inv in Hr as (e & _ & -> & _ & Hv & Ha & _).
  apply everyEvent_insert; [done|].
  apply validEvent_fields in Hv as (_ & _ & _ & Hc).
  unfold withinCapacity. rewrite Ha. cbn [length]. lia.
Qed.

Lemma create_distinct castDate st newId user body file :
  everyEvent distinctAttendees st ->
  everyEvent distinctAttendees (createEvent castDate st newId user body file).2.
Proof.
  intros Hst. destruct (createEvent castDate st newId user body file)
    as [r st'] eqn:Hr.
  destruct r as [ev| |err];
    try (rewrite (createEvent_rejected _ _ _ _ _ _ _ _ Hr); done).
  apply createEvent_Created_inv in Hr as (e & _ & -> & _ & _ & Ha & _).
  apply everyEvent_insert; [done|].
  unfold distinctAttendees. rewrite Ha. apply NoDup_nil_2.
Qed.

(** *** Deletion *)

Lemma delete_every P st id user :
  everyEvent P st -> everyEvent P (deleteEvent st id user).2.
Proof.
  intros Hst. unfold deleteEvent. destruct (st !! id) as [e|]; [|done].
  destruct (negb _); [done|]. by apply everyEvent_delete.
Qed.

(** *** Edits keep the attendees; the capacity bound is kept by an edit that
    leaves the capacity alone. *)

Lemma update_distinct castDate st id user body file :
  everyEvent distinctAttendees st ->
  everyEvent distinctAttendees (updateEvent castDate st id user body file).2.
Proof.
  intros Hst.
  destruct (updateEvent castDate st id user body file) as [r st'] eqn:Hr.
  apply updateEvent_inv in Hr as [->|(e & e1 & He & -> & _ & _ & Ha & _)]; [done|].
  apply everyEvent_insert; [done|].
  unfold distinctAttendees. rewrite Ha. by apply (Hst id e).
Qed.

Lemma update_bounded castDate st id user body file :
  JS.truthy (body_capacity body) = false ->
  everyEvent withinCapacity st ->
  everyEvent withinCapacity (updateEvent castDate st id user body file).2.
Proof.
  intros Hf Hst.
  destruct (updateEvent castDate st id user body file) as [r st'] eqn:Hr.
  apply updateEvent_inv in Hr as [->|(e & e1 & He & -> & _ & _ & Ha & _ & Hc)];
    [done|].
  apply everyEvent_insert; [done|].
  unfold applyEdits in Hc. cbn [doc_capacity] in Hc. rewrite Hf in Hc.
  cbn [load doc_capacity] in Hc. injection Hc as Hc.
  pose proof (Hst id e He) as Hb. unfold withinCapacity in *.
  by rewrite Ha, <- Hc.
Qed.

(** *** Validity of the stored events is kept by every operation. *)

Lemma validStore_kept castDate st r :
  validStore st -> validStore (handle castDate st r).
Proof.
  intros Hst. destruct r as [newId user body file|id user body file|id user
                            |id user now|id user]; cbn [handle].
  - destruct (createEvent castDate st newId user body file) as [r st'] eqn:Hr.
    destruct r as [ev| |err];
      try (rewrite (createEvent_rejected _ _ _ _ _ _ _ _ Hr); done).
    apply createEvent_Created_inv in Hr as (e & _ & -> & _ & Hv & _).
    by apply everyEvent_insert.
  - destruct (updateEvent castDate st id user body file) as [r st'] eqn:Hr.
    apply updateEvent_inv in Hr as [->|(e & e1 & _ & -> & _ & Hv & _)]; [done|].
    by apply everyEvent_insert.
  - by apply delete_every.
  - destruct (rsvp st id user now) as [o st'] eqn:Hr.
    destruct o; try (rewrite (rsvp_rejected _ _ _ _ _ _ Hr); done).
    apply rsvp_Registered_inv in Hr as (e & He & _ & _ & _ & Hv & ->).
    by apply everyEvent_insert.
  - destruct (cancelRsvp st id user) as [o st'] eqn:Hr.
    destruct o; try (rewrite (cancel_rejected _ _ _ _ _ Hr); done).
    apply cancel_Cancelled_inv in Hr as (e & l1 & l2 & He & _ & _ & Hv & ->).
    by apply everyEvent_insert.
Qed.

(** *** Along a history *)

Lemma handle_distinct castDate st r :
  everyEvent distinctAttendees st ->
  everyEvent distinctAttendees (handle castDate st r).
Proof.
  destruct r; cbn [handle];
    auto using create_distinct, update_distinct, delete_every, rsvp_distinct,
      cancel_distinct.
Qed.

Lemma handle_bounded castDate st r :
  editsCapacity r = false ->
  everyEvent withinCapacity st -> everyEvent withinCapacity (handle castDate st r).
Proof.
  destruct r; cbn [handle editsCapacity]; intros Hr;
    auto using create_bounded, update_bounded, delete_every, rsvp_bounded,
      cancel_bounded.
Qed.

(** Whatever the requests, the stored events stay schema-valid and no user
    is listed twice in any of them. *)
Lemma history_valid_distinct castDate rs :
  forall st,
    validStore st -> everyEvent distinctAttendees st ->
    validStore (run castDate st rs) /\
    everyEvent distinctAttendees (run castDate st rs).
Proof.
  induction rs as [|r rs IH]; intros st Hv Hd; [done|].
  apply IH; [by apply validStore_kept | by apply handle_distinct].
Qed.

(** As long as no edit sets the capacity, no event is ever overbooked. *)
Lemma history_bounded castDate rs :
  forall st,
    Forall (fun r => editsCapacity r = false) rs ->
    storeInvariant st -> storeInvariant (run castDate st rs).
Proof.
  induction rs as [|r rs IH]; intros st Hrs Hst; [done|].
  apply Forall_cons in Hrs as [Hr Hrs].
  apply storeInvariant_split in Hst as [Hb Hd].
  apply IH; [done|]. apply storeInvariant_split.
  split; [by apply handle_bounded | by apply handle_distinct].
Qed.

(** C1, where the code departs from it. In the history [Sample.shrunk]
    every request is accepted: the event is created with capacity 2 and no
    attendees, two users are registered, and the creator's edit of the
    capacity to 1 is saved. The stored event then has two distinct
    attendees and capacity 1: the edit is not compared with the number of
    attendees, and the capacity bound no longer holds. *)
Theorem capacity_edit_overbooks :
  (exists e0,
     Sample.created.1 = Created (Some e0) /\ capacity e0 = 2 /\
     attendees e0 = [] /\ storeInvariant Sample.created.2) /\
  Sample.joined1.1 = Registered /\
  Sample.joined2.1 = Registered /\
  storeInvariant Sample.joined2.2 /\
  exists e,
    Sample.shrunk = (Updated (Some e), <[Sample.partyId := e]> Sample.joined2.2) /\
    attendees e = [Sample.bob; Sample.carol] /\ capacity e = 1 /\
    distinctAttendees e /\ ~ withinCapacity e /\
    ~ storeInvariant Sample.shrunk.2.
Proof.
  assert (H1 : storeInvariant Sample.created.2).
  { apply (history_bounded Sample.castMillis
             [Create Sample.partyId Sample.alice (Sample.meetupBody "2") None] ∅);
      [by repeat constructor|]. apply everyEvent_empty. }
  assert (H3 : storeInvariant Sample.joined2.2).
  { apply (history_bounded Sample.castMillis
             [Rsvp Sample.partyId Sample.bob 1000000;
              Rsvp Sample.partyId Sample.carol 1000001] Sample.created.2);
      [by repeat constructor | exact H1]. }
  split.
  { eexists. split; [vm_compute; reflexivity|].
    split; [reflexivity|]. split; [reflexivity | exact H1]. }
  split; [by vm_compute|]. split; [by vm_compute|]. split; [exact H3|].
  eexists. split; [vm_compute; reflexivity|].
  split; [reflexivity|]. split; [reflexivity|]. split.
  - unfold distinctAttendees. cbn [attendees].
    apply NoDup_cons. split; [|apply NoDup_singleton].
    intros H. apply list_elem_of_singleton in H. discriminate.
  - split.
    + unfold withinCapacity. simpl. lia.
    + intros H. specialize (H Sample.partyId _ ltac:(vm_compute; reflexivity)).
      destruct H as [H _]. unfold withinCapacity in H. simpl in H. lia.
Qed.

(** ** Contention, served in turn *)

(** Distinct users who are not yet listed ask for a place in an open event,
    one request after the other: as many as there is room for are
    registered, in the order of arrival, and all later ones find the event
    full. *)
Lemma rsvpAll_in_turn id now users :
  forall st e,
    st !! id = Some e -> validEvent e -> now <= date e ->
    NoDup users -> (forall u, u ∈ users -> u ∉ attendees e) ->
    let room := Z.to_nat (capacity e - Z.of_nat (length (attendees e))) in
    (rsvpAll st id users now).1
    = replicate (room `min` length users) Registered
      ++ replicate (length users - room) Full /\
    exists e',
      (rsvpAll st id users now).2 !! id = Some e' /\
      attendees e' = attendees e ++ take room users /\
      metadata e' = metadata e.
Proof.
  induction users as [|u rest IH]; intros st e He Hv Hd Hnd Hfresh room.
  - simpl. rewrite Nat.min_0_r. split; [done|].
    exists e. by rewrite take_nil, app_nil_r.
  - apply NoDup_cons in Hnd as [Hu Hnd]. cbn [rsvpAll].
    assert (Hnin : u ∉ attendees e) by (apply Hfresh; left).
    destruct (Z.lt_ge_cases (Z.of_nat (length (attendees e))) (capacity e))
      as [Hlt|Hge].
    + rewrite (rsvp_registered st id u now e) by done.
      set (e1 := withAttendees (attendees e ++ [u]) e).
      destruct (IH (<[id := e1]> st) e1) as [Hos (e' & He' & Ha & Hm)];
        [apply lookup_insert_eq | done | done | done | |].
      { intros v Hv' Hin. cbn [e1 attendees withAttendees] in Hin.
        apply elem_of_app in Hin as [Hin|Hin].
        - by apply (Hfresh v); [right|].
        - apply list_elem_of_singleton in Hin. by subst. }
      destruct (rsvpAll (<[id := e1]> st) id rest now) as [os st2].
      cbn [fst snd] in *.
      assert (Hroom : room = S (Z.to_nat (capacity e1
                                 - Z.of_nat (length (attendees e1))))).
      { subst room e1. cbn [attendees capacity withAttendees].
        rewrite length_app. cbn [length]. lia. }
      rewrite Hroom. cbn [length]. split.
      * rewrite Hos. rewrite <- Nat.succ_min_distr. done.
      * exists e'. split; [done|]. split; [|done].
        rewrite Ha. cbn [e1 attendees withAttendees take].
        by rewrite <- app_assoc.
    + rewrite (rsvp_full st id u now e) by (done || lia).
      destruct (IH st e) as [Hos (e' & He' & Ha & Hm)]; try done.
      { intros v Hv'. apply Hfresh. by right. }
      destruct (rsvpAll st id rest now) as [os st2]. cbn [fst snd] in *.
      assert (Hroom : room = 0%nat) by (subst room; lia).
      rewrite Hroom in *.
      replace (Z.to_nat (capacity e - Z.of_nat (length (attendees e))))
        with 0%nat in * by lia.
      split.
      * rewrite Hos. cbn [length]. by rewrite Nat.sub_0_r.
      * exists e'. split; [done|]. split; [|done]. by rewrite Ha.
Qed.

(** X13. In particular, an empty event of capacity [C] and [N > C] distinct
    users, none ended early: the first [C] requests are registered, the
    other [N - C] find it full, and [C] attendees are stored. *)
Corollary rsvpAll_capacity id now users st e :
  st !! id = Some e -> validEvent e -> now <= date e -> NoDup users ->
  attendees e = [] -> capacity e < Z.of_nat (length users) ->
  let C := Z.to_nat (capacity e) in
  (rsvpAll st id users now).1
  = replicate C Registered ++ replicate (length users - C) Full /\
  exists e',
    (rsvpAll st id users now).2 !! id = Some e' /\
    attendees e' = take C users /\ length (attendees e') = C.
Proof.
  intros He Hv Hd Hnd Ha Hlt C.
  destruct (rsvpAll_in_turn id now users st e He Hv Hd Hnd)
    as [Hos (e' & He' & Ha' & _)].
  { intros u _. rewrite Ha. apply not_elem_of_nil. }
  rewrite Ha in *. cbn [length] in *.
  replace (Z.to_nat (capacity e - Z.of_nat 0)) with C in * by (subst C; lia).
  assert (C <= length users)%nat by (subst C; lia).
  rewrite Nat.min_l in Hos by done. split; [done|].
  exists e'. split; [done|]. rewrite Ha'. cbn [app].
  split; [done|]. rewrite length_take. lia.
Qed.

(** * Further properties of the routes *)

(** ** Deletion and edits *)

Lemma withAttendees_same e : withAttendees (attendees e) e = e.
Proof. by destruct e. Qed.

Lemma withAttendees_twice l1 l2 e :
  withAttendees l1 (withAttendees l2 e) = withAttendees l1 e.
Proof. done. Qed.

(** X1. Only the creator of an event deletes it, and a deletion removes
    that event and nothing else: the answer is [Deleted] exactly when the
    event is stored and the requester created it; afterwards the event is
    gone for [getEvent], for RSVPs and for cancellations, and every other
    event is as before. Any other answer leaves the collection as it was. *)
Theorem delete_creator_only st id user :
  let r := deleteEvent st id user in
  (r.1 = Deleted <-> exists e, st !! id = Some e /\ creator e = user) /\
  (r.1 = Deleted ->
   r.2 = delete id st /\ getEvent r.2 id = None /\
   (forall u now, rsvp r.2 id u now = (EventNotFound, r.2)) /\
   (forall u, cancelRsvp r.2 id u = (EventNotFound, r.2)) /\
   (forall other, other <> id -> r.2 !! other = st !! other)) /\
  (r.1 <> Deleted -> r.2 = st).
Proof.
  cbv zeta. unfold deleteEvent. destruct (st !! id) as [e|] eqn:He.
  - destruct (String.eqb_spec (creator e) user) as [Hc|Hc]; cbn [negb fst snd].
    + split; [split; [by exists e | done]|]. split; [|done].
      intros _. assert (Hgone : delete id st !! id = None) by apply lookup_delete_eq.
      split; [done|]. split; [done|].
      split; [intros u now; by apply rsvp_not_found|].
      split; [intros u; by apply cancel_not_found|].
      intros other Hne. by apply lookup_delete_ne.
    + split; [split; [done | by intros (e0 & [= <-] & ?)]|]. done.
  - cbn [fst snd]. split; [split; [done | by intros (e0 & ? & ?)]|]. done.
Qed.


(** X3. An edit that names no field (each one absent or the empty string)
    and carries no file is accepted and changes nothing: an empty string
    never clears a stored field. *)
Theorem update_nothing castDate st id user body e :
  st !! id = Some e -> creator e = user -> validEvent e ->
  JS.truthy (body_title body) = false ->
  JS.truthy (body_description body) = false ->
  JS.truthy (body_date body) = false ->
  JS.truthy (body_location body) = false ->
  JS.truthy (body_capacity body) = false ->
  updateEvent castDate st id user body None = (Updated (Some e), st).
Proof.
  intros He Hc Hv Ht Hd Hdt Hl Hcap.
  assert (Hdoc : applyEdits castDate e body None = load e).
  { unfold applyEdits. by rewrite Ht, Hd, Hdt, Hl, Hcap. }
  rewrite (updateEvent_success castDate st id user body None e e);
    [by rewrite insert_id | done | done | by rewrite Hdoc | ].
  rewrite Hdoc. apply toEvent_load.
Qed.

Lemma update_nothing_witness :
  updateEvent Sample.castMillis Sample.store Sample.galaId Sample.alice
    {| body_title := Some ""; body_description := None; body_date := Some "";
       body_location := None; body_capacity := Some "" |} None
  = (Updated (Some Sample.gala), Sample.store).
Proof.
  apply (update_nothing Sample.castMillis Sample.store Sample.galaId
           Sample.alice _ Sample.gala); reflexivity.
Defined.

(** ** Joining and leaving, composed *)

Lemma findIndex_snoc user l :
  user ∉ l -> findIndex user (l ++ [user]) = Some (length l).
Proof.
  induction l as [|a l IH]; intros Hnin; simpl.
  - by rewrite String.eqb_refl.
  - apply not_elem_of_cons in Hnin as [Hne Hnin].
    destruct (String.eqb_spec a user) as [->|_]; [done|].
    by rewrite IH.
Qed.

Lemma splice1_snoc (user : UserId) l : splice1 (length l) (l ++ [user]) = l.
Proof.
  unfold splice1. rewrite take_app_length.
  rewrite drop_ge; [by rewrite app_nil_r|].
  rewrite length_app. simpl. lia.
Qed.

(** The store after an attempt is the store before it, or that store with
    the event of the attempt rewritten. *)
Lemma attempt_shape st id a :
  (attempt st id a).2 = st \/
  exists e e',
    st !! id = Some e /\ (attempt st id a).2 = <[id := e']> st
    /\ metadata e' = metadata e.
Proof.
  destruct (attempt st id a) as [o st'] eqn:Ha. cbn [snd].
  destruct a as [user now|user]; cbn [attempt] in Ha.
  - destruct o; try (left; by eapply rsvp_rejected).
    right. apply rsvp_Registered_inv in Ha as (e & He & _ & _ & _ & _ & ->).
    by exists e, (withAttendees (attendees e ++ [user]) e).
  - destruct o; try (left; by eapply cancel_rejected).
    right. apply cancel_Cancelled_inv in Ha as (e & l1 & l2 & He & _ & _ & _ & ->).
    by exists e, (withAttendees (l1 ++ l2) e).
Qed.

(** A change to another event goes through an attempt untouched. *)
Lemma attempt_other st id a other x :
  other <> id ->
  attempt (<[other := x]> st) id a
  = ((attempt st id a).1, <[other := x]> (attempt st id a).2).
Proof.
  intros Hne. destruct a as [user now|user]; cbn [attempt].
  - unfold rsvp. cbn [startTransaction working committed abortTransaction].
    rewrite lookup_insert_ne by done.
    destruct (st !! id) as [e|]; [|done].
    destruct (date e <? now); [done|].
    destruct (isRegistered user (attendees e)); [done|].
    destruct (_ >=? _); [done|].
    unfold saveIn, save. cbn [working committed].
    destruct (validate _); [|done]. rewrite toEvent_load.
    cbn [andb commitTransaction working fst snd].
    by rewrite insert_insert_ne.
  - unfold cancelRsvp. rewrite lookup_insert_ne by done.
    destruct (st !! id) as [e|]; [|done].
    destruct (findIndex user (attendees e)); [|done].
    unfold save. destruct (validate _); [|done]. rewrite toEvent_load.
    cbn [andb fst snd]. by rewrite insert_insert_ne.
Qed.

(** X4. Joining and then leaving is a round trip: after an RSVP that was
    answered [Registered], the same user's cancellation is answered
    [Cancelled] and the collection is exactly the one before the RSVP. *)
Theorem rsvp_then_cancel st id user now :
  (rsvp st id user now).1 = Registered ->
  cancelRsvp (rsvp st id user now).2 id user = (Cancelled, st).
Proof.
  intros Hr. destruct (rsvp st id user now) as [o st'] eqn:Hrsvp.
  cbn [fst snd] in *. subst o.
  apply rsvp_Registered_inv in Hrsvp as (e & He & _ & Hnin & _ & Hv & ->).
  unfold cancelRsvp. rewrite lookup_insert_eq.
  cbn [attendees withAttendees]. rewrite findIndex_snoc by done.
  rewrite splice1_snoc, withAttendees_twice, withAttendees_same.
  rewrite save_loaded by done.
  by rewrite insert_insert_eq, insert_id.
Qed.

Lemma rsvp_then_cancel_witness :
  cancelRsvp (rsvp Sample.store Sample.meetupId Sample.bob 1000000).2
    Sample.meetupId Sample.bob
  = (Cancelled, Sample.store).
Proof.
  apply (rsvp_then_cancel Sample.store Sample.meetupId Sample.bob 1000000).
  reflexivity.
Defined.

(** X5. Leaving and then joining again puts the user at the end of the
    list: for an event within its invariants that has not started, after a
    cancellation answered [Cancelled] the user's RSVP is answered
    [Registered]; the attendees are the same people as before the
    cancellation, with the user moved to the last place. *)
Theorem cancel_then_rsvp st id user now e :
  st !! id = Some e -> eventInvariant e -> now <= date e ->
  (cancelRsvp st id user).1 = Cancelled ->
  exists l1 l2,
    attendees e = l1 ++ (user :: l2) /\
    rsvp (cancelRsvp st id user).2 id user now
    = (Registered, <[id := withAttendees (l1 ++ l2 ++ [user]) e]> st) /\
    l1 ++ l2 ++ [user] ≡ₚ attendees e.
Proof.
  intros He [Hcap Hnd] Hd Hc.
  destruct (cancelRsvp st id user) as [o st'] eqn:Hcancel.
  cbn [fst snd] in *. subst o.
  apply cancel_Cancelled_inv in Hcancel
    as (e0 & l1 & l2 & He0 & Hl & Hn1 & Hv & ->).
  rewrite He in He0. injection He0 as <-.
  unfold withinCapacity, distinctAttendees in *. rewrite Hl in Hcap, Hnd.
  exists l1, l2. split; [done|].
  assert (Hn : user ∉ l1 ++ l2).
  { apply NoDup_app in Hnd as (_ & _ & Hnd2). apply NoDup_cons in Hnd2 as [Hn2 _].
    intros Hin. apply elem_of_app in Hin as [?|?]; done. }
  split.
  - rewrite (rsvp_registered _ id user now (withAttendees (l1 ++ l2) e)).
    + cbn [attendees withAttendees]. rewrite withAttendees_twice.
      by rewrite insert_insert_eq, <- app_assoc.
    + apply lookup_insert_eq.
    + done.
    + done.
    + cbn [attendees capacity withAttendees].
      rewrite length_app in *. cbn [length] in Hcap. lia.
    + by apply validEvent_withAttendees.
  - rewrite Hl, app_assoc.
    rewrite <- (Permutation_middle (l1 ++ l2) [] user), app_nil_r.
    apply Permutation_middle.
Qed.

Lemma cancel_then_rsvp_witness :
  exists l1 l2,
    attendees Sample.gala = l1 ++ (Sample.bob :: l2) /\
    rsvp (cancelRsvp Sample.store Sample.galaId Sample.bob).2 Sample.galaId
      Sample.bob 1000000
    = (Registered,
       <[Sample.galaId := withAttendees (l1 ++ l2 ++ [Sample.bob]) Sample.gala]>
         Sample.store).
Proof.
  destruct (cancel_then_rsvp Sample.store Sample.galaId Sample.bob 1000000
              Sample.gala) as (l1 & l2 & Hl & Hr & _).
  - reflexivity.
  - split.
    + unfold withinCapacity. simpl. lia.
    + unfold distinctAttendees. cbn [attendees Sample.gala].
      apply NoDup_cons. split; [|apply NoDup_singleton].
      intros H. apply list_elem_of_singleton in H. discriminate.
  - simpl. lia.
  - reflexivity.
  - exists l1, l2. split; [exact Hl | exact Hr].
Defined.

(** X6. A cancellation frees exactly one place. In an event that is
    exactly full and has not started, an RSVP of someone who is not listed
    is answered [Full]; once a listed user has cancelled, that RSVP is
    answered [Registered], and the event is exactly full again. *)
Theorem cancel_frees_a_place st id a b now e :
  st !! id = Some e -> validEvent e -> now <= date e ->
  Z.of_nat (length (attendees e)) = capacity e ->
  a ∈ attendees e -> b ∉ attendees e ->
  rsvp st id b now = (Full, st) /\
  (cancelRsvp st id a).1 = Cancelled /\
  (rsvp (cancelRsvp st id a).2 id b now).1 = Registered /\
  exists e',
    (rsvp (cancelRsvp st id a).2 id b now).2 !! id = Some e' /\
    Z.of_nat (length (attendees e')) = capacity e' /\
    b ∈ attendees e'.
Proof.
  intros He Hv Hd Hfull Ha Hb.
  split; [apply (rsvp_full st id b now e); (done || lia)|].
  destruct (cancel_cancelled st id a e He Ha Hv) as (l1 & l2 & Hl & Hn1 & Hc).
  rewrite Hc. cbn [fst snd]. split; [done|].
  set (e1 := withAttendees (l1 ++ l2) e).
  assert (Hb1 : b ∉ l1 ++ l2).
  { intros Hin. apply Hb. rewrite Hl.
    apply elem_of_app in Hin as [?|?]; apply elem_of_app; [by left|].
    right. by right. }
  assert (Hlen : Z.of_nat (length (l1 ++ l2)) + 1 = capacity e).
  { rewrite <- Hfull, Hl, !length_app. cbn [length]. lia. }
  rewrite (rsvp_registered _ id b now e1);
    [|apply lookup_insert_eq | done | done
     |cbn [e1 attendees capacity withAttendees]; lia
     |by apply validEvent_withAttendees].
  cbn [fst snd]. split; [done|].
  exists (withAttendees ((l1 ++ l2) ++ [b]) e). split; [|split].
  - subst e1. cbn [attendees withAttendees].
    by rewrite insert_insert_eq, lookup_insert_eq.
  - cbn [attendees capacity withAttendees]. rewrite length_app. cbn [length]. lia.
  - cbn [attendees withAttendees]. apply elem_of_app. right.
    by apply list_elem_of_singleton.
Qed.

Lemma cancel_frees_a_place_witness :
  rsvp Sample.store Sample.galaId Sample.alice 1000000 = (Full, Sample.store) /\
  (rsvp (cancelRsvp Sample.store Sample.galaId Sample.bob).2 Sample.galaId
     Sample.alice 1000000).1 = Registered.
Proof.
  destruct (cancel_frees_a_place Sample.store Sample.galaId Sample.bob
              Sample.alice 1000000 Sample.gala) as (Hf & _ & Hr & _).
  - reflexivity.
  - reflexivity.
  - simpl. lia.
  - reflexivity.
  - left.
  - intros H. apply elem_of_cons in H as [H|H]; [discriminate|].
    apply list_elem_of_singleton in H. discriminate.
  - split; [exact Hf | exact Hr].
Defined.

(** X7. Attempts on different events do not interfere: whichever of two
    attempts (each a join or a leave) is served first, both get the same
    answers and the collection ends up the same. *)
Theorem attempts_on_other_events_commute st id1 id2 a1 a2 :
  id1 <> id2 ->
  let first := attempt st id1 a1 in
  let second := attempt first.2 id2 a2 in
  let second' := attempt st id2 a2 in
  let first' := attempt second'.2 id1 a1 in
  first'.1 = first.1 /\ second'.1 = second.1 /\ first'.2 = second.2.
Proof.
  intros Hne first second second' first'.
  subst first second second' first'.
  destruct (attempt_shape st id1 a1) as [H1|(e1 & e1' & _ & H1 & _)];
    destruct (attempt_shape st id2 a2) as [H2|(e2 & e2' & _ & H2 & _)];
    repeat (rewrite ?H1, ?H2, ?attempt_other by done; cbn [fst snd]);
    repeat split.
  by apply insert_insert_ne.
Qed.

Lemma attempts_on_other_events_commute_witness :
  (attempt (attempt Sample.store Sample.galaId (Leave Sample.bob)).2
     Sample.meetupId (Join Sample.bob 1000000)).2
  = (attempt (attempt Sample.store Sample.meetupId (Join Sample.bob 1000000)).2
       Sample.galaId (Leave Sample.bob)).2.
Proof.
  symmetry.
  apply (attempts_on_other_events_commute Sample.store Sample.meetupId
           Sample.galaId (Join Sample.bob 1000000) (Leave Sample.bob)).
  discriminate.
Defined.

(** ** What the listings show after a request *)

Lemma elem_of_listByAttendee st user id e :
  (id, e) ∈ listByAttendee st user <-> st !! id = Some e /\ user ∈ attendees e.
Proof.
  unfold listByAttendee.
  destruct (listing_spec
              (fun e => existsb (fun a => String.eqb a user) (attendees e)) st)
    as (_ & _ & Hm).
  rewrite Hm. by rewrite <- (isRegistered_true user (attendees e)).
Qed.

Lemma elem_of_listByCreator st user id e :
  (id, e) ∈ listByCreator st user <-> st !! id = Some e /\ creator e = user.
Proof.
  unfold listByCreator.
  destruct (listing_spec (fun e => String.eqb (creator e) user) st)
    as (_ & _ & Hm).
  rewrite Hm. by rewrite String.eqb_eq.
Qed.

Lemma elem_of_listUpcoming st id e :
  (id, e) ∈ listUpcoming st <-> st !! id = Some e.
Proof.
  unfold listUpcoming.
  destruct (listing_spec (fun _ => true) st) as (_ & _ & Hm).
  rewrite Hm. split; [by intros [? _] | done].
Qed.

Lemma filter_all {A} (l : list A) : List.filter (fun _ => true) l = l.
Proof. induction l as [|x l IH]; simpl; [done | by rewrite IH]. Qed.

Lemma length_listUpcoming st : length (listUpcoming st) = size st.
Proof.
  unfold listUpcoming, find. rewrite sortByDate_Permutation, filter_all.
  apply length_map_to_list.
Qed.

(** X8. The attending list of a user follows the user's attempts: after an
    RSVP answered [Registered] the event is on it; after a cancellation
    answered [Cancelled] the event, if it listed nobody twice, is no longer
    on it; and no attempt changes whether another event is on it. *)
Theorem attending_list_follows st id user :
  (forall now,
     (rsvp st id user now).1 = Registered ->
     exists e', (id, e') ∈ listByAttendee (rsvp st id user now).2 user) /\
  ((cancelRsvp st id user).1 = Cancelled ->
   (forall e, st !! id = Some e -> distinctAttendees e) ->
   forall e', (id, e') ∉ listByAttendee (cancelRsvp st id user).2 user) /\
  (forall a other e u,
     other <> id ->
     (other, e) ∈ listByAttendee (attempt st id a).2 u
     <-> (other, e) ∈ listByAttendee st u).
Proof.
  split; [|split].
  - intros now Hr. destruct (rsvp st id user now) as [o st'] eqn:Hrsvp.
    cbn [fst snd] in *. subst o.
    apply rsvp_Registered_inv in Hrsvp as (e & _ & _ & _ & _ & _ & ->).
    exists (withAttendees (attendees e ++ [user]) e).
    apply elem_of_listByAttendee. rewrite lookup_insert_eq. split; [done|].
    cbn [attendees withAttendees]. apply elem_of_app. right.
    by apply list_elem_of_singleton.
  - intros Hc Hnd e'. destruct (cancelRsvp st id user) as [o st'] eqn:Hcancel.
    cbn [fst snd] in *. subst o.
    apply cancel_Cancelled_inv in Hcancel
      as (e & l1 & l2 & He & Hl & Hn1 & _ & ->).
    rewrite elem_of_listByAttendee, lookup_insert_eq.
    intros [[= <-] Hin]. cbn [attendees withAttendees] in Hin.
    specialize (Hnd e He). unfold distinctAttendees in Hnd. rewrite Hl in Hnd.
    apply NoDup_app in Hnd as (_ & _ & Hnd). apply NoDup_cons in Hnd as [Hn2 _].
    apply elem_of_app in Hin as [?|?]; done.
  - intros a other e u Hne. rewrite !elem_of_listByAttendee.
    destruct (attempt_shape st id a) as [->|(e0 & e1 & _ & -> & _)]; [done|].
    by rewrite lookup_insert_ne.
Qed.

(** X9. An event that has just been created is there for everyone: it can
    be fetched by its id, it is on the events list (which is one longer
    than before) and on its creator's list, it is on nobody's attending
    list, and the first RSVP made before its start is answered
    [Registered]. *)
Theorem created_event_is_visible castDate st newId user body file e st' :
  createEvent castDate st newId user body file = (Created (Some e), st') ->
  getEvent st' newId = Some e /\
  (newId, e) ∈ listUpcoming st' /\
  length (listUpcoming st') = S (length (listUpcoming st)) /\
  (newId, e) ∈ listByCreator st' user /\
  (forall u, (newId, e) ∉ listByAttendee st' u) /\
  (forall u now,
     now <= date e ->
     rsvp st' newId u now = (Registered, <[newId := withAttendees [u] e]> st')).
Proof.
  intros Hc.
  apply createEvent_Created_inv in Hc
    as (e0 & [= <-] & -> & Hfresh & Hv & Ha & Hcr & _).
  assert (Hget : <[newId := e]> st !! newId = Some e) by apply lookup_insert_eq.
  split; [done|]. split; [by apply elem_of_listUpcoming|].
  split; [rewrite !length_listUpcoming; by apply map_size_insert_None|].
  split; [by apply elem_of_listByCreator|].
  split.
  - intros u [_ Hin]%elem_of_listByAttendee. rewrite Ha in Hin.
    by apply not_elem_of_nil in Hin.
  - intros u now Hd.
    rewrite (rsvp_registered _ newId u now e); try done.
    + by rewrite Ha.
    + rewrite Ha. apply not_elem_of_nil.
    + rewrite Ha. apply validEvent_fields in Hv as (_ & _ & _ & Hcap).
      cbn [length]. lia.
Qed.

Lemma created_event_is_visible_witness :
  exists e,
    getEvent Sample.created.2 Sample.partyId = Some e /\
    (Sample.partyId, e) ∈ listByCreator Sample.created.2 Sample.alice.
Proof.
  destruct Sample.created as [r st'] eqn:Hc.
  assert (Hr : exists e, r = Created (Some e)).
  { apply (f_equal fst) in Hc. vm_compute in Hc. subst r. by eexists. }
  destruct Hr as [e ->]. exists e. cbn [snd].
  destruct (created_event_is_visible Sample.castMillis ∅ Sample.partyId
              Sample.alice (Sample.meetupBody "2") None e st' Hc)
    as (Hg & _ & _ & Hl & _).
  split; [exact Hg | exact Hl].
Defined.

(** ** Text fields: blank input and trimming *)

Lemma trimStart_blank s : blank s = true -> JS.trimStart s = "".
Proof.
  induction s as [|c r IH]; simpl; [done|].
  intros [Hc Hr]%andb_prop. rewrite Hc. by apply IH.
Qed.

Lemma trim_blank s : blank s = true -> JS.trim s = "".
Proof. intros H. unfold JS.trim. by rewrite trimStart_blank. Qed.

Lemma trimEnd_idem s : JS.trimEnd (JS.trimEnd s) = JS.trimEnd s.
Proof.
  induction s as [|c r IH]; [done|]. cbn [JS.trimEnd].
  destruct (JS.trimEnd r) as [|c' r'] eqn:Hr.
  - destruct (JS.isWhiteSpace c) eqn:Hc; [done|]. cbn [JS.trimEnd]. by rewrite Hc.
  - cbn [JS.trimEnd] in *. by rewrite IH.
Qed.

(** [trimEnd] keeps a first character that is not white space. *)
Lemma trimEnd_head c r :
  JS.isWhiteSpace c = false -> exists r', JS.trimEnd (String c r) = String c r'.
Proof.
  intros Hc. cbn [JS.trimEnd]. destruct (JS.trimEnd r); [|by eexists].
  rewrite Hc. by eexists.
Qed.

Lemma trimStart_head c r :
  JS.isWhiteSpace c = false -> JS.trimStart (String c r) = String c r.
Proof. intros Hc. cbn [JS.trimStart]. by rewrite Hc. Qed.

(** What [trimStart] leaves is empty or begins with a character that is not
    white space. *)
Lemma trimStart_cases s :
  JS.trimStart s = "" \/
  exists c r, JS.trimStart s = String c r /\ JS.isWhiteSpace c = false.
Proof.
  induction s as [|c r IH]; [by left|]. cbn [JS.trimStart].
  destruct (JS.isWhiteSpace c) eqn:Hc; [done|]. right. by exists c, r.
Qed.

Lemma trim_idem s : JS.trim (JS.trim s) = JS.trim s.
Proof.
  unfold JS.trim. destruct (trimStart_cases s) as [->|(c & r & -> & Hc)]; [done|].
  destruct (trimEnd_head c r Hc) as [r' Hr']. rewrite Hr'.
  rewrite trimStart_head by done. rewrite <- Hr'. apply trimEnd_idem.
Qed.

(** A save that the validators stop reports all they found. *)
Lemma save_invalid isNew st id d :
  validate d <> [] -> save isNew st id d = inl (ValidationError (validate d)).
Proof. intros H. unfold save. by destruct (validate d). Qed.

Lemma toEvent_text d e :
  toEvent d = Some e ->
  title e = doc_title d /\ description e = doc_description d /\
  location e = doc_location d /\ image e = doc_image d.
Proof.
  unfold toEvent. destruct (doc_date d), (doc_capacity d); try done.
  by intros [= <-].
Qed.

Lemma createEvent_Created_text castDate st newId user body file ev st' :
  createEvent castDate st newId user body file = (Created ev, st') ->
  exists e,
    ev = Some e /\ st' = <[newId := e]> st /\
    title e = JS.trim (field (body_title body)) /\
    description e = field (body_description body) /\
    location e = JS.trim (field (body_location body)) /\
    image e = uploadPath file.
Proof.
  unfold createEvent. destruct (_ || _); [done|].
  destruct (save true st newId _) as [err|w] eqn:Hs; [done|].
  intros [= <- <-]. apply save_inr in Hs as (e & He & _ & -> & _).
  exists e. rewrite lookup_insert_eq.
  destruct (toEvent_text _ _ He) as (Ht & Hd & Hl & Hi). done.
Qed.

Lemma updateEvent_Updated_doc castDate st id user body file r st' :
  updateEvent castDate st id user body file = (r, st') ->
  st' = st \/
  exists e e',
    st !! id = Some e /\ st' = <[id := e']> st /\ r = Updated (Some e') /\
    toEvent (applyEdits castDate e body file) = Some e'.
Proof.
  unfold updateEvent. destruct (st !! id) as [e|] eqn:He; [|intros [= <- <-]; by left].
  destruct (negb _); [intros [= <- <-]; by left|].
  destruct (save false st id _) as [err|w] eqn:Hs; intros [= <- <-]; [by left|].
  right. apply save_inr in Hs as (e' & He' & _ & -> & _).
  exists e, e'. by rewrite lookup_insert_eq.
Qed.

(** X10. White space is not a title. A title or a location that is not
    empty but holds white space only passes the handler's check for missing
    fields and is then stopped by the schema, after trimming: a creation
    stores nothing and, unless another field is missing, fails with the
    [required] error of that path; an edit by the creator fails with it and
    changes nothing. *)
Theorem blank_text_is_refused castDate st id user body file t path :
  blank t = true -> t <> "" ->
  (path = "title" /\ body_title body = Some t) \/
  (path = "location" /\ body_location body = Some t) ->
  ((createEvent castDate st id user body file).2 = st /\
   ((createEvent castDate st id user body file).1 = MissingFields \/
    exists errors,
      (createEvent castDate st id user body file).1
      = CreateFailed (ValidationError errors) /\ (path, Required) ∈ errors)) /\
  (forall e,
     st !! id = Some e -> creator e = user ->
     exists errors,
       updateEvent castDate st id user body file
       = (UpdateFailed (ValidationError errors), st) /\
       (path, Required) ∈ errors).
Proof.
  intros Hb Hne Hfield.
  assert (Htruthy : JS.truthy (Some t) = true) by by apply truthy_Some.
  assert (Hin : forall d,
             (path = "title" /\ doc_title d = "") \/
             (path = "location" /\ doc_location d = "") ->
             (path, Required) ∈ validate d).
  { intros d [[-> Hd]|[-> Hd]]; unfold validate; rewrite Hd.
    - apply elem_of_app. left. by apply list_elem_of_singleton.
    - rewrite !elem_of_app. do 3 right. left. by apply list_elem_of_singleton. }
  assert (Hsave : forall isNew d,
             (path = "title" /\ doc_title d = "") \/
             (path = "location" /\ doc_location d = "") ->
             save isNew st id d = inl (ValidationError (validate d))).
  { intros isNew d Hd. apply save_invalid. intros Hnil.
    specialize (Hin d Hd). rewrite Hnil in Hin. by apply not_elem_of_nil in Hin. }
  split.
  - unfold createEvent. destruct (_ || _); [by split; [|left]|].
    match goal with
    | |- context [save true st id ?d] =>
        assert (Hd : (path = "title" /\ doc_title d = "") \/
                     (path = "location" /\ doc_location d = ""))
    end.
    { destruct Hfield as [[-> Hf]|[-> Hf]]; [left|right]; (split; [done|]);
        cbn [doc_title doc_location]; rewrite Hf; by apply trim_blank. }
    rewrite (Hsave true _ Hd). cbn [fst snd]. split; [done|]. right.
    eexists. split; [done|]. by apply Hin.
  - intros e He Hc. unfold updateEvent.
    rewrite He, Hc, String.eqb_refl. cbn [negb].
    assert (Hd : (path = "title" /\ doc_title (applyEdits castDate e body file) = "") \/
                 (path = "location"
                  /\ doc_location (applyEdits castDate e body file) = "")).
    { destruct Hfield as [[-> Hf]|[-> Hf]]; [left|right]; (split; [done|]);
        unfold applyEdits; cbn [doc_title doc_location];
        rewrite Hf, Htruthy; by apply trim_blank. }
    rewrite (Hsave false _ Hd). eexists. split; [done|]. by apply Hin.
Qed.

Lemma blank_text_is_refused_witness :
  exists errors,
    updateEvent Sample.castMillis Sample.store Sample.galaId Sample.alice
      {| body_title := Some "   "; body_description := None; body_date := None;
         body_location := None; body_capacity := None |} None
    = (UpdateFailed (ValidationError errors), Sample.store) /\
    ("title", Required) ∈ errors.
Proof.
  destruct (blank_text_is_refused Sample.castMillis Sample.store Sample.galaId
              Sample.alice
              {| body_title := Some "   "; body_description := None;
                 body_date := None; body_location := None;
                 body_capacity := None |} None "   " "title")
    as [_ Hu].
  - reflexivity.
  - discriminate.
  - left. split; reflexivity.
  - apply (Hu Sample.gala); reflexivity.
Defined.

Lemma handle_trimmed castDate st r :
  everyEvent trimmedEvent st -> everyEvent trimmedEvent (handle castDate st r).
Proof.
  intros Hst. destruct r as [newId user body file|id user body file|id user
                            |id user now|id user]; cbn [handle].
  - destruct (createEvent castDate st newId user body file) as [r st'] eqn:Hr.
    destruct r as [ev| |err];
      try (rewrite (createEvent_rejected _ _ _ _ _ _ _ _ Hr); done).
    apply createEvent_Created_text in Hr as (e & _ & -> & Ht & _ & Hl & _).
    apply everyEvent_insert; [done|]. unfold trimmedEvent.
    rewrite Ht, Hl. split; apply trim_idem.
  - destruct (updateEvent castDate st id user body file) as [r st'] eqn:Hr.
    apply updateEvent_Updated_doc in Hr as [->|(e & e' & He & -> & _ & Hdoc)];
      [done|].
    apply everyEvent_insert; [done|].
    destruct (toEvent_text _ _ Hdoc) as (Ht & _ & Hl & _).
    destruct (Hst id e He) as [Het Hel]. unfold trimmedEvent.
    rewrite Ht, Hl. unfold applyEdits. cbn [doc_title doc_location load].
    split.
    + destruct (JS.truthy (body_title body)); [apply trim_idem | done].
    + destruct (JS.truthy (body_location body)); [apply trim_idem | done].
  - by apply delete_every.
  - destruct (attempt_shape st id (Join user now))
      as [Hs|(e & e' & He & Hs & Hm)]; cbn [attempt] in Hs; rewrite Hs; [done|].
    apply everyEvent_insert; [done|].
    destruct (Hst id e He) as [Het Hel]. unfold metadata in Hm.
    injection Hm as Ht _ _ Hl _ _ _. unfold trimmedEvent. by rewrite Ht, Hl.
  - destruct (attempt_shape st id (Leave user))
      as [Hs|(e & e' & He & Hs & Hm)]; cbn [attempt] in Hs; rewrite Hs; [done|].
    apply everyEvent_insert; [done|].
    destruct (Hst id e He) as [Het Hel]. unfold metadata in Hm.
    injection Hm as Ht _ _ Hl _ _ _. unfold trimmedEvent. by rewrite Ht, Hl.
Qed.

(** X11. Titles and locations are stored trimmed: whatever requests have
    been served since the collection was empty, no stored title or location
    begins or ends with white space that [trim] would remove, and none is
    empty. *)
Theorem stored_text_is_trimmed castDate rs :
  everyEvent
    (fun e => trimmedEvent e /\ title e <> "" /\ location e <> "")
    (run castDate ∅ rs).
Proof.
  assert (Hgen : forall st,
             everyEvent trimmedEvent st -> validStore st ->
             everyEvent trimmedEvent (run castDate st rs)
             /\ validStore (run castDate st rs)).
  { induction rs as [|r rs IH]; intros st Ht Hv; [done|].
    apply IH; [by apply handle_trimmed | by apply validStore_kept]. }
  destruct (Hgen ∅) as [Ht Hv]; [apply everyEvent_empty | apply everyEvent_empty|].
  intros id e He. split; [by apply (Ht id)|].
  apply Hv in He. apply validEvent_fields in He as (? & _ & ? & _). done.
Qed.

(** ** Edits of the capacity *)

Lemma updateEvent_Updated_inv castDate st id user body file ev st' :
  updateEvent castDate st id user body file = (Updated ev, st') ->
  exists e e',
    st !! id = Some e /\ creator e = user /\ ev = Some e' /\
    st' = <[id := e']> st /\
    toEvent (applyEdits castDate e body file) = Some e' /\
    validate (applyEdits castDate e body file) = [].
Proof.
  unfold updateEvent. destruct (st !! id) as [e|] eqn:He; [|done].
  destruct (String.eqb_spec (creator e) user) as [Hc|Hc]; [|done].
  cbn [negb].
  destruct (save false st id _) as [err|w] eqn:Hs; [done|].
  intros [= <- <-]. apply save_inr in Hs as (e' & He' & Hv & -> & _).
  exists e, e'. by rewrite lookup_insert_eq.
Qed.

(** X12. An accepted edit keeps the event within its capacity exactly when
    it should: an edit that does not set the capacity keeps the bound as it
    was, and one that sets it leaves the event within capacity if and only
    if the number read from the request is at least the number of
    attendees; the handler does not check this. *)
Theorem edit_keeps_bound_iff castDate st id user body file e e' st' :
  updateEvent castDate st id user body file = (Updated (Some e'), st') ->
  st !! id = Some e ->
  withinCapacity e' <->
  if JS.truthy (body_capacity body)
  then exists c, JS.parseInt (field (body_capacity body)) = Some c
                 /\ Z.of_nat (length (attendees e)) <= c
  else withinCapacity e.
Proof.
  intros Hu He.
  apply updateEvent_Updated_inv in Hu
    as (e0 & e1 & He0 & _ & [= <-] & _ & Hdoc & _).
  rewrite He in He0. injection He0 as <-.
  destruct (toEvent_Some _ _ Hdoc) as (_ & Hc & Ha & _).
  unfold withinCapacity. rewrite Ha.
  unfold applyEdits in Hc. cbn [doc_capacity doc_attendees load] in *.
  destruct (JS.truthy (body_capacity body)).
  - rewrite Hc. split.
    + intros H. by exists (capacity e').
    + by intros (c & [= <-] & H).
  - by injection Hc as <-.
Qed.

Lemma edit_keeps_bound_iff_witness :
  exists e',
    Sample.shrunk.1 = Updated (Some e') /\ ~ withinCapacity e'.
Proof.
  destruct Sample.shrunk as [r st'] eqn:Hs.
  assert (Hr : exists e', r = Updated (Some e')).
  { apply (f_equal fst) in Hs. vm_compute in Hs. subst r. by eexists. }
  destruct Hr as [e' ->]. exists e'. split; [reflexivity|].
  assert (He : exists e, Sample.joined2.2 !! Sample.partyId = Some e
                         /\ length (attendees e) = 2%nat).
  { eexists. split; [vm_compute; reflexivity | reflexivity]. }
  destruct He as (e & He & Hlen).
  rewrite (edit_keeps_bound_iff Sample.castMillis Sample.joined2.2 Sample.partyId
             Sample.alice (Sample.capacityEdit "1") None e e' st' Hs He).
  cbn [Sample.capacityEdit body_capacity JS.truthy String.eqb negb].
  intros (c & Hc & Hle). vm_compute in Hc. injection Hc as <-.
  rewrite Hlen in Hle. lia.
Defined.

(** ** Along histories *)

Lemma rsvpAll_capacity_witness :
  (rsvpAll Sample.store Sample.meetupId [Sample.alice; Sample.bob; Sample.carol]
     1000000).1
  = [Registered; Registered; Full].
Proof.
  destruct (rsvpAll_capacity Sample.meetupId 1000000
              [Sample.alice; Sample.bob; Sample.carol] Sample.store Sample.meetup)
    as [Hos _].
  - reflexivity.
  - reflexivity.
  - simpl. lia.
  - repeat (apply NoDup_cons; split;
            [rewrite ?elem_of_cons, elem_of_nil; intros H;
             repeat (destruct H as [H|H]); done || discriminate|]).
    apply NoDup_nil_2.
  - reflexivity.
  - simpl. lia.
  - exact Hos.
Defined.


(** X15. What every history keeps: after any requests served from the
    empty collection no event lists a user twice, and as long as no edit
    set a capacity every event is within its capacity as well. *)
Theorem histories_keep_the_invariants castDate rs :
  everyEvent distinctAttendees (run castDate ∅ rs) /\
  (Forall (fun r => editsCapacity r = false) rs ->
   storeInvariant (run castDate ∅ rs)).
Proof.
  split.
  - destruct (history_valid_distinct castDate rs ∅) as [_ Hd];
      [apply everyEvent_empty | apply everyEvent_empty | done].
  - intros Hrs. apply history_bounded; [done|].
    intros id e He. by rewrite lookup_empty in He.
Qed.

(** * The pages and the routes behind them *)

(** ** The events page *)

(** X16. The events page and the engine agree. For a stored event that has
    not started and a logged-in user: the page marks the user as registered
    exactly when an RSVP would be answered [AlreadyRegistered], and exactly
    when a cancellation would be answered [Cancelled]. For a user it does
    not mark: when the card says "Event Full" an RSVP is answered [Full];
    when it says "n spots left" then n is at least 1, an RSVP is answered
    [Registered], and the card then says "n - 1 spots left", or "Event
    Full" when n was 1. *)
Theorem events_page_agrees_with_engine st id e user now :
  st !! id = Some e -> validEvent e -> now <= date e ->
  (EventsList.isUserRegistered (Some user) e = true
   <-> (rsvp st id user now).1 = AlreadyRegistered) /\
  (EventsList.isUserRegistered (Some user) e = true
   <-> (cancelRsvp st id user).1 = Cancelled) /\
  (EventsList.isUserRegistered (Some user) e = false ->
   match EventsList.badge e with
   | EventsList.BadgeFull => rsvp st id user now = (Full, st)
   | EventsList.BadgeAvailable spots =>
       1 <= spots /\
       exists e',
         rsvp st id user now = (Registered, <[id := e']> st) /\
         EventsList.badge e'
         = if spots =? 1 then EventsList.BadgeFull
           else EventsList.BadgeAvailable (spots - 1)
   end).
Proof.
  intros He Hv Hd.
  change (EventsList.isUserRegistered (Some user) e)
    with (isRegistered user (attendees e)).
  destruct (isRegistered user (attendees e)) eqn:Hreg.
  - apply isRegistered_true in Hreg.
    rewrite (rsvp_already st id user now e) by done.
    destruct (cancel_cancelled st id user e He Hreg Hv) as (l1 & l2 & _ & _ & ->).
    done.
  - apply isRegistered_false in Hreg.
    rewrite (cancel_not_registered st id user e) by done.
    unfold EventsList.badge, EventsList.isEventFull, EventsList.getAvailableSpots.
    destruct (Z.geb_spec (Z.of_nat (length (attendees e))) (capacity e)) as [Hfull|Hroom].
    + rewrite (rsvp_full st id user now e) by (done || lia). done.
    + rewrite (rsvp_registered st id user now e) by (done || lia).
      split; [done|]. split; [done|]. intros _. split; [lia|].
      eexists. split; [done|].
      unfold EventsList.badge, EventsList.isEventFull, EventsList.getAvailableSpots.
      cbn [attendees capacity withAttendees]. rewrite length_app. cbn [length].
      destruct (Z.eqb_spec (capacity e - Z.of_nat (length (attendees e))) 1)
        as [H1|H1];
        destruct (Z.geb_spec (Z.of_nat (length (attendees e) + 1)) (capacity e));
        try lia; [done|]. f_equal. lia.
Qed.

Lemma events_page_agrees_with_engine_witness :
  EventsList.badge Sample.meetup = EventsList.BadgeAvailable 2 /\
  exists e',
    rsvp Sample.store Sample.meetupId Sample.bob 1000000
    = (Registered, <[Sample.meetupId := e']> Sample.store) /\
    EventsList.badge e' = EventsList.BadgeAvailable 1.
Proof.
  split; [reflexivity|].
  destruct (events_page_agrees_with_engine Sample.store Sample.meetupId
              Sample.meetup Sample.bob 1000000) as (_ & _ & H).
  - reflexivity.
  - reflexivity.
  - simpl. lia.
  - destruct (H eq_refl) as (_ & e' & Hr & Hb).
    exists e'. split; [exact Hr | exact Hb].
Defined.

(** ** The creation form *)

Lemma validate_capacity_Min d :
  ("capacity", Min) ∈ validate d ->
  exists c, doc_capacity d = Some c /\ c < 1.
Proof.
  unfold validate, requiredString, validDate, validCapacity.
  rewrite !elem_of_app. intros [H|[H|[H|[H|H]]]].
  - destruct (String.eqb _ _); [|by apply not_elem_of_nil in H].
    apply list_elem_of_singleton in H. done.
  - destruct (String.eqb _ _); [|by apply not_elem_of_nil in H].
    apply list_elem_of_singleton in H. done.
  - destruct (doc_date d); [by apply not_elem_of_nil in H|].
    apply list_elem_of_singleton in H. done.
  - destruct (String.eqb _ _); [|by apply not_elem_of_nil in H].
    apply list_elem_of_singleton in H. done.
  - destruct (doc_capacity d) as [c|].
    + destruct (Z.ltb_spec c 1); [by exists c|]. by apply not_elem_of_nil in H.
    + apply list_elem_of_singleton in H. done.
Qed.

(** The errors of a failed save are the validators' errors. *)
Lemma save_inl_errors isNew st id d errors :
  save isNew st id d = inl (ValidationError errors) -> errors = validate d.
Proof.
  unfold save. destruct (validate d) as [|pe pes].
  - destruct (toEvent d); [|by intros [= <-]].
    by destruct (isNew && _).
  - by intros [= <-].
Qed.

Lemma empty_truthy v : CreateForm.empty v = false -> JS.truthy (Some v) = true.
Proof. unfold CreateForm.empty. simpl. by intros ->. Qed.

(** X17. The form's checks and the server's agree. A form that
    [handleSubmit] posts carries the five fields as typed; the server does
    not answer it with "missing fields" and never fails it on the minimum
    of the capacity. And a form that [handleSubmit] holds back with an
    error message would not have created an event: the form never refuses
    what the server would accept. *)
Theorem form_checks_agree_with_server castDate st newId user f image file :
  (forall body img,
     CreateForm.handleSubmit (Some user) f image = CreateForm.Post body img ->
     body = CreateForm.payload f /\ img = image /\
     (createEvent castDate st newId user body file).1 <> MissingFields /\
     forall errors,
       (createEvent castDate st newId user body file).1
       = CreateFailed (ValidationError errors) ->
       ("capacity", Min) ∉ errors) /\
  (forall message,
     CreateForm.handleSubmit (Some user) f image = CreateForm.ShowError message ->
     (createEvent castDate st newId user (CreateForm.payload f) file).2 = st /\
     forall ev,
       (createEvent castDate st newId user (CreateForm.payload f) file).1
       <> Created ev).
Proof.
  unfold CreateForm.handleSubmit.
  destruct (CreateForm.empty (CreateForm.form_title f)) eqn:Ht;
    [|destruct (CreateForm.empty (CreateForm.form_description f)) eqn:Hd;
      [|destruct (CreateForm.empty (CreateForm.form_date f)) eqn:Hdt;
        [|destruct (CreateForm.empty (CreateForm.form_location f)) eqn:Hl;
          [|destruct (CreateForm.empty (CreateForm.form_capacity f)) eqn:Hc]]]];
    cbn [orb].
  1-5: split; [done|]; intros message _;
    rewrite createEvent_missing; [done|];
    unfold CreateForm.payload, CreateForm.empty in *;
    cbn [body_title body_description body_date body_location body_capacity
         JS.truthy];
    rewrite ?Ht, ?Hd, ?Hdt, ?Hl, ?Hc; cbn [negb andb];
    by rewrite ?andb_false_r.
  apply empty_truthy in Ht, Hd, Hdt, Hl, Hc.
  assert (Hsave : exists d,
             doc_capacity d = JS.parseInt (CreateForm.form_capacity f) /\
             createEvent castDate st newId user (CreateForm.payload f) file
             = match save true st newId d with
               | inl err => (CreateFailed err, st)
               | inr st' => (Created (st' !! newId), st')
               end).
  { unfold createEvent, CreateForm.payload.
    cbn [body_title body_description body_date body_location body_capacity].
    rewrite Ht, Hd, Hdt, Hl, Hc. cbn [negb orb].
    eexists. split; [|reflexivity]. reflexivity. }
  destruct Hsave as (d & Hdc & Hcreate).
  unfold CreateForm.capacityBelowOne.
  destruct (JS.parseInt (CreateForm.form_capacity f)) as [c|] eqn:Hp.
  - destruct (Z.ltb_spec c 1) as [Hlt|Hge].
    + split; [done|]. intros message _.
      destruct (createEvent_low_capacity castDate st newId user
                  (CreateForm.payload f) file (CreateForm.form_capacity f) c)
        as [->|(errors & -> & _)]; done.
    + split; [|done]. intros body img [= <- <-].
      split; [done|]. split; [done|]. rewrite Hcreate.
      destruct (save true st newId d) as [err|st'] eqn:Hs; [|done].
      split; [done|]. intros errors [= ->] Hin.
      apply save_inl_errors in Hs. subst errors.
      apply validate_capacity_Min in Hin as (c' & Hc' & Hlt).
      rewrite Hdc in Hc'. injection Hc' as <-. lia.
  - split; [|done]. intros body img [= <- <-].
    split; [done|]. split; [done|]. rewrite Hcreate.
    destruct (save true st newId d) as [err|st'] eqn:Hs; [|done].
    split; [done|]. intros errors [= ->] Hin.
    apply save_inl_errors in Hs. subst errors.
    apply validate_capacity_Min in Hin as (c' & Hc' & Hlt).
    by rewrite Hdc in Hc'.
Qed.

(** * Uploads *)

Lemma append_cons x (a b : string) : String x a +:+ b = String x (a +:+ b).
Proof. reflexivity. Qed.

Lemma append_nil_l (a : string) : "" +:+ a = a.
Proof. reflexivity. Qed.

Lemma append_assoc (a b c : string) : (a +:+ b) +:+ c = a +:+ (b +:+ c).
Proof.
  induction a as [|x a IH]; [done|]. by rewrite !append_cons, IH.
Qed.

Lemma everyChar_app P a b :
  everyChar P (a +:+ b) = everyChar P a && everyChar P b.
Proof.
  induction a as [|x a IH]; [done|].
  rewrite append_cons. cbn [everyChar]. by rewrite IH, andb_assoc.
Qed.

Lemma everyChar_of_list P l :
  everyChar P (String.string_of_list_ascii l) = forallb P l.
Proof. induction l as [|x l IH]; simpl; [done | by rewrite IH]. Qed.

Lemma everyChar_weaken (P Q : Ascii.ascii -> bool) s :
  (forall c, P c = true -> Q c = true) ->
  everyChar P s = true -> everyChar Q s = true.
Proof.
  intros HPQ. induction s as [|x s IH]; simpl; [done|].
  intros [Hx Hs]%andb_prop. rewrite (HPQ x Hx). by apply IH.
Qed.

(** *** Numbers in decimal *)

Lemma pretty_N_char_digit x : isDigitChar (pretty_N_char x) = true.
Proof. unfold pretty_N_char. by repeat case_match. Qed.

Lemma pretty_N_go_digits x s :
  everyChar isDigitChar s = true -> everyChar isDigitChar (pretty_N_go x s) = true.
Proof.
  revert s. induction (N.lt_wf_0 x) as [x _ IH]; intros s Hs.
  assert (x = 0 \/ 0 < x)%N as [->|Hpos] by lia.
  - by rewrite pretty_N_go_0.
  - rewrite pretty_N_go_step by done. apply IH.
    + by apply N.div_lt.
    + simpl. by rewrite pretty_N_char_digit.
Qed.

Lemma pretty_N_digits (x : N) : everyChar isDigitChar (pretty x) = true.
Proof.
  unfold pretty, pretty_N. case_decide; [done|]. by apply pretty_N_go_digits.
Qed.

Lemma pretty_N_nonempty (x : N) : pretty x <> "".
Proof.
  unfold pretty, pretty_N. case_decide; [done|].
  assert (0 < x)%N as Hpos by lia.
  rewrite pretty_N_go_step by done.
  assert (Hlen : forall y s,
             (String.length s <= String.length (pretty_N_go y s))%nat).
  { intros y. induction (N.lt_wf_0 y) as [y _ IH]; intros s.
    assert (y = 0 \/ 0 < y)%N as [->|Hy] by lia; [by rewrite pretty_N_go_0|].
    rewrite pretty_N_go_step by done.
    etrans; [|apply IH; by apply N.div_lt]. simpl. lia. }
  intros Heq. specialize (Hlen (x `div` 10)%N (String (pretty_N_char (x `mod` 10)) "")).
  rewrite Heq in Hlen. simpl in Hlen. lia.
Qed.

(** Where the digits of a string end is determined: two strings that begin
    with digits and go on with something that does not begin with a digit
    are equal only part by part. *)
Lemma digits_then_rest a : forall b x y,
  everyChar isDigitChar a = true -> everyChar isDigitChar b = true ->
  digitless x -> digitless y ->
  a +:+ x = b +:+ y -> a = b /\ x = y.
Proof.
  induction a as [|c a IH]; intros [|c' b] x y Ha Hb Hx Hy Heq.
  - done.
  - change (x = String c' (b +:+ y)) in Heq. subst x.
    cbn [digitless everyChar] in *. apply andb_prop in Hb as [Hc _]. congruence.
  - change (String c (a +:+ x) = y) in Heq. subst y.
    cbn [digitless everyChar] in *. apply andb_prop in Ha as [Hc _]. congruence.
  - change (String c (a +:+ x) = String c' (b +:+ y)) in Heq.
    injection Heq as -> Heq. cbn [everyChar] in *.
    apply andb_prop in Ha as [_ Ha]. apply andb_prop in Hb as [_ Hb].
    destruct (IH b x y Ha Hb Hx Hy Heq) as [-> ->]. done.
Qed.

(** *** The extension of a name *)

Lemma takePortion_notSlash l : forallb notSlash (Upload.takePortion l) = true.
Proof.
  induction l as [|c l IH]; simpl; [done|].
  destruct (Upload.isSlash c) eqn:Hc; [done|]. simpl.
  unfold notSlash at 1. by rewrite Hc.
Qed.

Lemma splitAtDot_after l :
  forallb notSlash l = true ->
  forallb notSlashNorDot (Upload.splitAtDot l).1 = true.
Proof.
  induction l as [|c l IH]; simpl; [done|].
  intros [Hc Hl]%andb_prop. destruct (Upload.isDot c) eqn:Hd; [done|].
  cbn [fst forallb]. rewrite (IH Hl), andb_true_r.
  unfold notSlashNorDot, notSlash in *. by rewrite Hd, andb_true_r.
Qed.

Lemma forallb_rev {A} (P : A -> bool) l : forallb P (rev l) = forallb P l.
Proof.
  induction l as [|x l IH]; [done|]. simpl. rewrite forallb_app. simpl.
  rewrite IH. by rewrite andb_true_r, andb_comm.
Qed.

(** An extension is empty, or a dot followed by characters that are neither
    dots nor slashes. *)
Lemma extname_cases path :
  Upload.extname path = "" \/
  exists r, Upload.extname path = String "." r
            /\ everyChar notSlashNorDot r = true.
Proof.
  unfold Upload.extname.
  set (portion := Upload.takePortion _).
  pose proof (splitAtDot_after portion (takePortion_notSlash _)) as Hafter.
  destruct (Upload.splitAtDot portion) as [after [[|b before]|]]; try by left.
  case_bool_decide; [by left|]. right.
  eexists. split; [simpl; reflexivity|].
  rewrite everyChar_of_list, forallb_rev. done.
Qed.

(** X18. The name under which an upload is stored is safe and tells its
    parts: it is the digits of the time, a dash, the digits of the random
    number, and the extension of the original name; the extension is empty
    or one dot followed by characters that are neither dots nor slashes.
    So the stored name contains no slash, whatever the original name was,
    and it begins with a digit. *)
Theorem stored_name_is_safe now random file :
  let name := Upload.filename now random file in
  everyChar notSlash name = true /\
  (exists c r, name = String c r /\ isDigitChar c = true) /\
  everyChar isDigitChar (pretty now) = true /\
  everyChar isDigitChar (pretty random) = true /\
  (Upload.extname (Upload.originalname file) = "" \/
   exists r, Upload.extname (Upload.originalname file) = String "." r
             /\ everyChar notSlashNorDot r = true).
Proof.
  cbv zeta. unfold Upload.filename.
  pose proof (pretty_N_digits now) as Hn.
  pose proof (pretty_N_digits random) as Hr.
  pose proof (extname_cases (Upload.originalname file)) as He.
  assert (Hds : forall s, everyChar isDigitChar s = true -> everyChar notSlash s = true).
  { intros s. apply everyChar_weaken. intros c Hc.
    unfold isDigitChar, notSlash, Upload.isSlash in *.
    destruct (Ascii.eqb_spec c "/") as [->|_]; [done|done]. }
  split; [|split; [|done]].
  - rewrite !everyChar_app, (Hds _ Hn), (Hds _ Hr). cbn [everyChar andb].
    destruct He as [->|(r & -> & Hx)]; [done|].
    cbn [everyChar]. rewrite andb_true_r. cbn [andb].
    change (notSlash ".") with true. cbn [andb].
    revert Hx. apply everyChar_weaken. intros c Hc.
    unfold notSlashNorDot, notSlash in *. by apply andb_prop in Hc as [-> _].
  - pose proof (pretty_N_nonempty now) as Hne.
    destruct (pretty now) as [|c r] eqn:Hp; [done|].
    exists c. eexists. split; [simpl; reflexivity|].
    simpl in Hn. by apply andb_prop in Hn as [-> _].
Qed.

(** X19. Stored names do not clash by accident: two uploads get the same
    name only if they were stored at the same millisecond, drew the same
    random number and have the same extension. *)
Theorem stored_names_differ now1 random1 file1 now2 random2 file2 :
  Upload.filename now1 random1 file1 = Upload.filename now2 random2 file2 ->
  now1 = now2 /\ random1 = random2 /\
  Upload.extname (Upload.originalname file1)
  = Upload.extname (Upload.originalname file2).
Proof.
  unfold Upload.filename. rewrite !append_assoc. intros Heq.
  apply digits_then_rest in Heq as [Hn Heq];
    [|apply pretty_N_digits | apply pretty_N_digits | done | done].
  apply (inj pretty) in Hn. split; [done|].
  rewrite !append_cons in Heq. injection Heq as Heq.
  rewrite !append_nil_l in Heq.
  assert (Hd : forall p, digitless (Upload.extname p)).
  { intros p. destruct (extname_cases p) as [->|(r & -> & _)]; done. }
  apply digits_then_rest in Heq as [Hr He];
    [|apply pretty_N_digits | apply pretty_N_digits | apply Hd | apply Hd].
  apply (inj pretty) in Hr. done.
Qed.

Lemma stored_names_differ_witness :
  Upload.filename 1700000000000 42 (Upload.mkFile "a.png" "image/png" 1000)
  = Upload.filename 1700000000000 42 (Upload.mkFile "b/c.png" "image/png" 2000) /\
  Upload.extname "a.png" = Upload.extname "b/c.png".
Proof.
  assert (H : Upload.filename 1700000000000 42 (Upload.mkFile "a.png" "image/png" 1000)
              = Upload.filename 1700000000000 42
                  (Upload.mkFile "b/c.png" "image/png" 2000))
    by (vm_compute; reflexivity).
  split; [exact H|].
  exact (proj2 (proj2 (stored_names_differ _ _ _ _ _ _ H))).
Defined.

(** *** Letter case in a file name *)











(** X21. What is stored as the image of an event. An event created from a
    request that went through the upload step has an empty image when the
    request carried no file, and otherwise the path under [/uploads/] of the
    stored name; the file then passed the filter. An accepted edit without a
    file keeps the image, and one with a file points at the new name. *)
Theorem image_of_an_event castDate st id user body now random file stored :
  Upload.single now random file = Some stored ->
  (forall e st',
     createEvent castDate st id user body stored = (Created (Some e), st') ->
     image e = match file with
               | None => ""
               | Some f => "/uploads/" +:+ Upload.filename now random f
               end) /\
  (forall e e' st',
     st !! id = Some e ->
     updateEvent castDate st id user body stored = (Updated (Some e'), st') ->
     image e' = match file with
                | None => image e
                | Some f => "/uploads/" +:+ Upload.filename now random f
                end) /\
  (forall f, file = Some f -> Upload.fileFilter f = true).
Proof.
  intros Hs.
  assert (Hstored : stored = Upload.filename now random <$> file
                    /\ forall f, file = Some f -> Upload.fileFilter f = true).
  { unfold Upload.single in Hs. destruct file as [f|]; [|by injection Hs as <-].
    destruct (Upload.fileFilter f) eqn:Hf; [|done]. cbn [negb] in Hs.
    destruct (Upload.fileSize <? Upload.size f)%N; [done|]. injection Hs as <-.
    split; [done|]. by intros f' [= <-]. }
  destruct Hstored as [-> Hfilter]. split; [|split; [|done]].
  - intros e st' Hc.
    apply createEvent_Created_text in Hc as (e0 & [= <-] & _ & _ & _ & _ & Hi).
    rewrite Hi. by destruct file.
  - intros e e' st' He Hu.
    apply updateEvent_Updated_inv in Hu
      as (e0 & e1 & He0 & _ & [= <-] & _ & Hdoc & _).
    rewrite He in He0. injection He0 as <-.
    destruct (toEvent_text _ _ Hdoc) as (_ & _ & _ & Hi). rewrite Hi.
    unfold applyEdits. cbn [doc_image load]. by destruct file.
Qed.

Lemma image_of_an_event_witness :
  exists e,
    (createEvent Sample.castMillis ∅ Sample.partyId Sample.alice
       (Sample.meetupBody "2")
       (Some (Upload.filename 1700000000000 42
                (Upload.mkFile "Poster.PNG" "image/png" 123456)))).1
    = Created (Some e) /\
    image e = "/uploads/1700000000000-42.PNG".
Proof.
  destruct (createEvent Sample.castMillis ∅ Sample.partyId Sample.alice
              (Sample.meetupBody "2")
              (Some (Upload.filename 1700000000000 42
                       (Upload.mkFile "Poster.PNG" "image/png" 123456))))
    as [r st'] eqn:Hc.
  assert (Hr : exists e, r = Created (Some e)).
  { apply (f_equal fst) in Hc. vm_compute in Hc. subst r. by eexists. }
  destruct Hr as [e ->]. exists e. split; [reflexivity|].
  destruct (image_of_an_event Sample.castMillis ∅ Sample.partyId Sample.alice
              (Sample.meetupBody "2") 1700000000000 42
              (Some (Upload.mkFile "Poster.PNG" "image/png" 123456))
              (Some (Upload.filename 1700000000000 42
                       (Upload.mkFile "Poster.PNG" "image/png" 123456))))
    as [Hcreate _].
  - reflexivity.
  - rewrite (Hcreate e st' Hc). vm_compute. reflexivity.
Defined.
